(** * CVD-Image-Recolorization: the browser client of [src/App.tsx]

    The repository's client is one React function component, [App].  This
    development embeds it as a state machine:

    - the ten [useState] cells are the record [State];
    - one execution of the body of [App] (a render) binds those ten values
      as constants; every function created by that render
      ([startVideoStreaming], the socket handlers, the [onplaying] handler)
      closes over them, so a closure is the [State] of the render that made it;
    - the two [useRef] cells, the browser's timer table, the socket and the
      logs of what was sent live in the record [World];
    - user input, socket traffic, fetch results and the passing of time are
      the constructors of [Event]; [step] runs the handler the source attaches
      to the event and then lets React commit ([commit]): re-render, and run
      the effect of lines 20-91 when one of its two dependencies changed.

    The colour engine ([simulate], [correct]) is not part of the client; it
    is modelled from the specification in the module [Engine]. *)

From Stdlib Require Import ZArith QArith Qabs Qminmax Lia Lqa.
From Stdlib Require Import Ascii String.
From stdpp Require Import base option list strings gmap.

Local Open Scope string_scope.
Local Open Scope nat_scope.

(** ** JavaScript values *)

(** A cell typed [string | null].  At run time it can also hold
    [undefined]: reading a field that an object lacks yields it. *)
Inductive JsString :=
| undefined
| null
| str (s : string).

(** JavaScript truthiness of such a value: only a non-empty string. *)
Definition truthy (v : JsString) : bool :=
  match v with
  | str s => negb (String.eqb s "")
  | _ => false
  end.

(** [a || b] *)
Definition js_or (a b : JsString) : JsString :=
  if truthy a then a else b.

(** An object received over the wire, with string-valued fields. *)
Abbreviation JsObject := (gmap string string).

(** [o.k] *)
Definition field (o : JsObject) (k : string) : JsString :=
  match o !! k with
  | Some s => str s
  | None => undefined
  end.

(** [n || d] on numbers: [0] is falsy. *)
Definition num_or (n d : Z) : Z :=
  if (n =? 0)%Z then d else n.

(** A [File] built by [captureImage]. *)
Record File := {
  file_bits : string;
  file_name : string;
  file_type : string
}.

(** ** The hooks of [App] (lines 5-16) *)

Record State := {
  capturedImage : option File;
  deficiency : string;
  imageURL : JsString;
  previewURL : JsString;
  isLoading : bool;
  cameraActive : bool;
  errorMessage : JsString;
  isVideoMode : bool;
  isVideoStreaming : bool;
  processedVideoFrame : JsString
}.

Definition initialState : State := {|
  capturedImage := None;
  deficiency := "deuteranopia";
  imageURL := null;
  previewURL := null;
  isLoading := false;
  cameraActive := false;
  errorMessage := null;
  isVideoMode := false;
  isVideoStreaming := false;
  processedVideoFrame := null
|}.

(** The [<option>] elements of the [<select>] (lines 649-651): the only
    values [e.target.value] can take in its [onChange]. *)
Inductive DeficiencyOption := Protanopia | Deuteranopia | Tritanopia.

Definition option_value (o : DeficiencyOption) : string :=
  match o with
  | Protanopia => "protanopia"
  | Deuteranopia => "deuteranopia"
  | Tritanopia => "tritanopia"
  end.

Definition selectors : list string :=
  map option_value [Protanopia; Deuteranopia; Tritanopia].

(** ** Browser objects *)

(** A socket.io client socket; its handlers were registered by the effect
    of the render [sock_closure]. *)
Record Socket := {
  sock_id : nat;
  connected : bool;
  sock_closure : State
}.

Inductive TimerKind :=
| Interval (delay : nat)
| Timeout.

(** The two functions the source hands to the timer API: the arrow
    function of [setInterval] (lines 113-156) and the one of [setTimeout]
    (lines 261-263), each with the render it closes over. *)
Inductive Callback :=
| FrameCapture (closure : State)
| AutoStart (closure : State).

Record Timer := {
  timer_id : nat;
  due : nat;
  kind : TimerKind;
  callback : Callback
}.

(** What [socket.emit(event, data)] put on the wire. *)
Record Emit := {
  em_socket : nat;
  em_event : string;
  em_data : JsObject
}.

(** What [fetch(url, {method, body})] sent; the body is a [FormData], an
    ordered list of entries. *)
Record Request := {
  req_url : string;
  req_method : string;
  req_body : list (string * File)
}.

(** The page as one interval tick finds it. *)
Record Video := {
  readyState : nat;
  videoWidth : Z;
  videoHeight : Z
}.

Definition HAVE_ENOUGH_DATA : nat := 4.

(** [drawImage] followed by [toDataURL] either throws or yields a string. *)
Inductive Capture :=
| Throws
| DataURL (s : string).

Record Dom := {
  videoElement : option Video;   (* document.getElementById("video-stream") *)
  context2d : bool;              (* canvas.getContext("2d") is not null *)
  capture : Capture
}.

(** ** The world *)

Record World := {
  VITE_API_URL : string;           (* import.meta.env.VITE_API_URL *)
  hooks : State;                   (* the useState cells *)
  rendered : State;                (* the render on screen *)
  socketRef : option Socket;
  streamIntervalRef : option nat;
  timers : list Timer;             (* the window's timer table *)
  now : nat;                       (* milliseconds *)
  nextTimer : nat;
  nextSocket : nat;
  emitted : list Emit;             (* oldest first *)
  requests : list Request;         (* oldest first *)
  inflight : nat;                  (* fetches not yet settled *)
  attempts : list nat;             (* times the interval callback ran, newest first *)
  startCalls : nat                 (* times startVideoStreaming ran *)
}.

Definition initial (host : string) : World := {|
  VITE_API_URL := host;
  hooks := initialState;
  rendered := initialState;
  socketRef := None;
  streamIntervalRef := None;
  timers := [];
  now := 0;
  nextTimer := 1;
  nextSocket := 1;
  emitted := [];
  requests := [];
  inflight := 0;
  attempts := [];
  startCalls := 0
|}.

(** ** Writing the hooks

    [setX v] stores [v] in the cell; the renders that already happened,
    and the closures they made, keep the value they were created with. *)

Definition with_hooks (st : State) (w : World) : World := {|
  VITE_API_URL := VITE_API_URL w; hooks := st; rendered := rendered w;
  socketRef := socketRef w; streamIntervalRef := streamIntervalRef w;
  timers := timers w; now := now w; nextTimer := nextTimer w;
  nextSocket := nextSocket w; emitted := emitted w; requests := requests w;
  inflight := inflight w; attempts := attempts w; startCalls := startCalls w
|}.

Definition setCapturedImage (v : option File) (w : World) : World :=
  let s := hooks w in
  with_hooks {| capturedImage := v; deficiency := deficiency s;
    imageURL := imageURL s; previewURL := previewURL s;
    isLoading := isLoading s; cameraActive := cameraActive s;
    errorMessage := errorMessage s; isVideoMode := isVideoMode s;
    isVideoStreaming := isVideoStreaming s;
    processedVideoFrame := processedVideoFrame s |} w.

Definition setDeficiency (v : string) (w : World) : World :=
  let s := hooks w in
  with_hooks {| capturedImage := capturedImage s; deficiency := v;
    imageURL := imageURL s; previewURL := previewURL s;
    isLoading := isLoading s; cameraActive := cameraActive s;
    errorMessage := errorMessage s; isVideoMode := isVideoMode s;
    isVideoStreaming := isVideoStreaming s;
    processedVideoFrame := processedVideoFrame s |} w.

Definition setImageURL (v : JsString) (w : World) : World :=
  let s := hooks w in
  with_hooks {| capturedImage := capturedImage s; deficiency := deficiency s;
    imageURL := v; previewURL := previewURL s;
    isLoading := isLoading s; cameraActive := cameraActive s;
    errorMessage := errorMessage s; isVideoMode := isVideoMode s;
    isVideoStreaming := isVideoStreaming s;
    processedVideoFrame := processedVideoFrame s |} w.

Definition setPreviewURL (v : JsString) (w : World) : World :=
  let s := hooks w in
  with_hooks {| capturedImage := capturedImage s; deficiency := deficiency s;
    imageURL := imageURL s; previewURL := v;
    isLoading := isLoading s; cameraActive := cameraActive s;
    errorMessage := errorMessage s; isVideoMode := isVideoMode s;
    isVideoStreaming := isVideoStreaming s;
    processedVideoFrame := processedVideoFrame s |} w.

Definition setIsLoading (v : bool) (w : World) : World :=
  let s := hooks w in
  with_hooks {| capturedImage := capturedImage s; deficiency := deficiency s;
    imageURL := imageURL s; previewURL := previewURL s;
    isLoading := v; cameraActive := cameraActive s;
    errorMessage := errorMessage s; isVideoMode := isVideoMode s;
    isVideoStreaming := isVideoStreaming s;
    processedVideoFrame := processedVideoFrame s |} w.

Definition setCameraActive (v : bool) (w : World) : World :=
  let s := hooks w in
  with_hooks {| capturedImage := capturedImage s; deficiency := deficiency s;
    imageURL := imageURL s; previewURL := previewURL s;
    isLoading := isLoading s; cameraActive := v;
    errorMessage := errorMessage s; isVideoMode := isVideoMode s;
    isVideoStreaming := isVideoStreaming s;
    processedVideoFrame := processedVideoFrame s |} w.

Definition setErrorMessage (v : JsString) (w : World) : World :=
  let s := hooks w in
  with_hooks {| capturedImage := capturedImage s; deficiency := deficiency s;
    imageURL := imageURL s; previewURL := previewURL s;
    isLoading := isLoading s; cameraActive := cameraActive s;
    errorMessage := v; isVideoMode := isVideoMode s;
    isVideoStreaming := isVideoStreaming s;
    processedVideoFrame := processedVideoFrame s |} w.

Definition setIsVideoMode (v : bool) (w : World) : World :=
  let s := hooks w in
  with_hooks {| capturedImage := capturedImage s; deficiency := deficiency s;
    imageURL := imageURL s; previewURL := previewURL s;
    isLoading := isLoading s; cameraActive := cameraActive s;
    errorMessage := errorMessage s; isVideoMode := v;
    isVideoStreaming := isVideoStreaming s;
    processedVideoFrame := processedVideoFrame s |} w.

Definition setIsVideoStreaming (v : bool) (w : World) : World :=
  let s := hooks w in
  with_hooks {| capturedImage := capturedImage s; deficiency := deficiency s;
    imageURL := imageURL s; previewURL := previewURL s;
    isLoading := isLoading s; cameraActive := cameraActive s;
    errorMessage := errorMessage s; isVideoMode := isVideoMode s;
    isVideoStreaming := v;
    processedVideoFrame := processedVideoFrame s |} w.

Definition setProcessedVideoFrame (v : JsString) (w : World) : World :=
  let s := hooks w in
  with_hooks {| capturedImage := capturedImage s; deficiency := deficiency s;
    imageURL := imageURL s; previewURL := previewURL s;
    isLoading := isLoading s; cameraActive := cameraActive s;
    errorMessage := errorMessage s; isVideoMode := isVideoMode s;
    isVideoStreaming := isVideoStreaming s;
    processedVideoFrame := v |} w.

(** ** Writing the rest of the world *)

Definition with_rendered (st : State) (w : World) : World := {|
  VITE_API_URL := VITE_API_URL w; hooks := hooks w; rendered := st;
  socketRef := socketRef w; streamIntervalRef := streamIntervalRef w;
  timers := timers w; now := now w; nextTimer := nextTimer w;
  nextSocket := nextSocket w; emitted := emitted w; requests := requests w;
  inflight := inflight w; attempts := attempts w; startCalls := startCalls w
|}.

Definition with_socketRef (s : option Socket) (w : World) : World := {|
  VITE_API_URL := VITE_API_URL w; hooks := hooks w; rendered := rendered w;
  socketRef := s; streamIntervalRef := streamIntervalRef w;
  timers := timers w; now := now w; nextTimer := nextTimer w;
  nextSocket := nextSocket w; emitted := emitted w; requests := requests w;
  inflight := inflight w; attempts := attempts w; startCalls := startCalls w
|}.

Definition with_nextSocket (n : nat) (w : World) : World := {|
  VITE_API_URL := VITE_API_URL w; hooks := hooks w; rendered := rendered w;
  socketRef := socketRef w; streamIntervalRef := streamIntervalRef w;
  timers := timers w; now := now w; nextTimer := nextTimer w;
  nextSocket := n; emitted := emitted w; requests := requests w;
  inflight := inflight w; attempts := attempts w; startCalls := startCalls w
|}.

Definition with_streamIntervalRef (r : option nat) (w : World) : World := {|
  VITE_API_URL := VITE_API_URL w; hooks := hooks w; rendered := rendered w;
  socketRef := socketRef w; streamIntervalRef := r;
  timers := timers w; now := now w; nextTimer := nextTimer w;
  nextSocket := nextSocket w; emitted := emitted w; requests := requests w;
  inflight := inflight w; attempts := attempts w; startCalls := startCalls w
|}.

Definition with_timers (ts : list Timer) (w : World) : World := {|
  VITE_API_URL := VITE_API_URL w; hooks := hooks w; rendered := rendered w;
  socketRef := socketRef w; streamIntervalRef := streamIntervalRef w;
  timers := ts; now := now w; nextTimer := nextTimer w;
  nextSocket := nextSocket w; emitted := emitted w; requests := requests w;
  inflight := inflight w; attempts := attempts w; startCalls := startCalls w
|}.

Definition with_nextTimer (n : nat) (w : World) : World := {|
  VITE_API_URL := VITE_API_URL w; hooks := hooks w; rendered := rendered w;
  socketRef := socketRef w; streamIntervalRef := streamIntervalRef w;
  timers := timers w; now := now w; nextTimer := n;
  nextSocket := nextSocket w; emitted := emitted w; requests := requests w;
  inflight := inflight w; attempts := attempts w; startCalls := startCalls w
|}.

Definition with_now (n : nat) (w : World) : World := {|
  VITE_API_URL := VITE_API_URL w; hooks := hooks w; rendered := rendered w;
  socketRef := socketRef w; streamIntervalRef := streamIntervalRef w;
  timers := timers w; now := n; nextTimer := nextTimer w;
  nextSocket := nextSocket w; emitted := emitted w; requests := requests w;
  inflight := inflight w; attempts := attempts w; startCalls := startCalls w
|}.

Definition with_emitted (l : list Emit) (w : World) : World := {|
  VITE_API_URL := VITE_API_URL w; hooks := hooks w; rendered := rendered w;
  socketRef := socketRef w; streamIntervalRef := streamIntervalRef w;
  timers := timers w; now := now w; nextTimer := nextTimer w;
  nextSocket := nextSocket w; emitted := l; requests := requests w;
  inflight := inflight w; attempts := attempts w; startCalls := startCalls w
|}.

Definition with_requests (l : list Request) (n : nat) (w : World) : World := {|
  VITE_API_URL := VITE_API_URL w; hooks := hooks w; rendered := rendered w;
  socketRef := socketRef w; streamIntervalRef := streamIntervalRef w;
  timers := timers w; now := now w; nextTimer := nextTimer w;
  nextSocket := nextSocket w; emitted := emitted w; requests := l;
  inflight := n; attempts := attempts w; startCalls := startCalls w
|}.

Definition with_attempts (l : list nat) (w : World) : World := {|
  VITE_API_URL := VITE_API_URL w; hooks := hooks w; rendered := rendered w;
  socketRef := socketRef w; streamIntervalRef := streamIntervalRef w;
  timers := timers w; now := now w; nextTimer := nextTimer w;
  nextSocket := nextSocket w; emitted := emitted w; requests := requests w;
  inflight := inflight w; attempts := l; startCalls := startCalls w
|}.

Definition with_startCalls (n : nat) (w : World) : World := {|
  VITE_API_URL := VITE_API_URL w; hooks := hooks w; rendered := rendered w;
  socketRef := socketRef w; streamIntervalRef := streamIntervalRef w;
  timers := timers w; now := now w; nextTimer := nextTimer w;
  nextSocket := nextSocket w; emitted := emitted w; requests := requests w;
  inflight := inflight w; attempts := attempts w; startCalls := n
|}.

(** ** The timer API of [window] *)

Definition setTimer (k : TimerKind) (cb : Callback) (delay : nat) (w : World)
  : nat * World :=
  let id := nextTimer w in
  let t := {| timer_id := id; due := now w + delay; kind := k; callback := cb |} in
  (id, with_nextTimer (S id) (with_timers (timers w ++ [t]) w)).

Definition setInterval (cb : Callback) (delay : nat) (w : World) : nat * World :=
  setTimer (Interval delay) cb delay w.

Definition setTimeout (cb : Callback) (delay : nat) (w : World) : nat * World :=
  setTimer Timeout cb delay w.

Definition clearInterval (id : nat) (w : World) : World :=
  with_timers (filter (λ t, timer_id t ≠ id) (timers w)) w.

(** The interval timers in the table. *)
Definition is_interval (t : Timer) : bool :=
  match kind t with
  | Interval _ => true
  | Timeout => false
  end.

Definition intervals (w : World) : list Timer :=
  filter (λ t, is_interval t = true) (timers w).

(** ** Streaming (lines 106-167) *)

Definition jpegPrefix : string := "data:image/jpeg;base64,".

(** The object literal of lines 141-144. *)
Definition videoFrame (frameData selector : string) : JsObject :=
  {[ "frame" := frameData; "deficiency" := selector ]}.

(** [socket.emit(event, data)] *)
Definition emit (event : string) (data : JsObject) (s : Socket) (w : World)
  : World :=
  with_emitted
    (emitted w ++ [{| em_socket := sock_id s; em_event := event; em_data := data |}])
    w.

(** The body of the arrow function given to [setInterval] (lines 114-155).
    [closure] is the render in which [startVideoStreaming] was created: the
    identifier [deficiency] of line 143 is that render's constant.  The
    refs and the document are read when the callback runs. *)
Definition captureFrame (closure : State) (env : Dom) (w : World) : World :=
  match videoElement env, socketRef w with
  | Some v, Some s =>
      if connected s && bool_decide (readyState v = HAVE_ENOUGH_DATA) then
        let width := num_or (videoWidth v) 640 in
        let height := num_or (videoHeight v) 480 in
        if ((width <=? 0) || (height <=? 0))%Z then w
        else if context2d env then
          match capture env with
          | DataURL frameData =>
              if truthy (str frameData) && String.prefix jpegPrefix frameData
              then emit "video_frame"
                     (videoFrame frameData (deficiency closure)) s w
              else w
          | Throws => w
          end
        else w
      else w
  | _, _ => w
  end.

(** [startVideoStreaming] (lines 106-157) of the render [closure]. *)
Definition startVideoStreaming (closure : State) (w : World) : World :=
  let w := with_startCalls (S (startCalls w)) w in
  let w := setIsVideoStreaming true w in
  let w := match streamIntervalRef w with
           | Some (S _ as id) => clearInterval id w
           | _ => w
           end in
  let '(id, w) := setInterval (FrameCapture closure) 100 w in
  with_streamIntervalRef (Some id) w.

(** [stopVideoStreaming] (lines 159-167); it reads no render constant. *)
Definition stopVideoStreaming (w : World) : World :=
  let w := setIsVideoStreaming false w in
  let w := setProcessedVideoFrame null w in
  match streamIntervalRef w with
  | Some (S _ as id) => with_streamIntervalRef None (clearInterval id w)
  | _ => w
  end.

(** ** The effect (lines 20-91) *)

(** Its clean-up function (lines 79-90).  Only the socket held by
    [socketRef] is tracked: [disconnect()] on it makes its [disconnect]
    handler run with the reason ["io client disconnect"], for which the
    handler only logs. *)
Definition effectCleanup (w : World) : World :=
  let w := match socketRef w with
           | Some _ => with_socketRef None w
           | None => w
           end in
  match streamIntervalRef w with
  | Some (S _ as id) => with_streamIntervalRef None (clearInterval id w)
  | _ => w
  end.

(** Its body (lines 21-77), run by the render [closure].  [io(...)] returns
    a socket that is not yet connected; connection failures arrive later
    as [connect_error] events. *)
Definition effectBody (closure : State) (w : World) : World :=
  match isVideoMode closure, socketRef w with
  | true, None =>
      with_nextSocket (S (nextSocket w))
        (with_socketRef
           (Some {| sock_id := nextSocket w; connected := false;
                    sock_closure := closure |}) w)
  | _, _ => w
  end.

(** The dependency array [[isVideoMode, isVideoStreaming]]. *)
Definition deps (st : State) : bool * bool :=
  (isVideoMode st, isVideoStreaming st).

(** React commits the pending state: the component renders with the
    current cells, and when a dependency differs from the previous render
    the previous effect is cleaned up and the effect runs again. *)
Definition commit (w : World) : World :=
  let old := rendered w in
  let new := hooks w in
  let w := with_rendered new w in
  if bool_decide (deps old = deps new) then w
  else effectBody new (effectCleanup w).

(** ** Handlers *)

(** [resetCapture] (lines 229-234) *)
Definition resetCapture (w : World) : World :=
  setErrorMessage null
    (setImageURL null (setPreviewURL null (setCapturedImage None w))).

(** [toggleVideoMode] (lines 97-104) *)
Definition toggleVideoMode (closure : State) (w : World) : World :=
  let w := setIsVideoMode (negb (isVideoMode closure)) w in
  let w := resetCapture w in
  if isVideoStreaming closure then stopVideoStreaming w else w.

(** [captureImage] (lines 169-190), with what [toBlob] hands to its
    callback: nothing, or the bits and the object URL made for them. *)
Definition captureImage (blob : option (string * string)) (w : World) : World :=
  match blob with
  | Some (bits, url) =>
      let file := {| file_bits := bits; file_name := "camera-capture.jpg";
                     file_type := "image/jpeg" |} in
      setCameraActive false (setPreviewURL (str url) (setCapturedImage (Some file) w))
  | None => w
  end.

(** [handleProcess] up to the [await fetch] (lines 192-209). *)
Definition handleProcess (closure : State) (w : World) : World :=
  match capturedImage closure with
  | None => w
  | Some image =>
      let w := setIsLoading true w in
      let w := setErrorMessage null w in
      let formData := [("image", image)] in
      let url := "http://" ++ VITE_API_URL w ++ ":5000/correct/"
                 ++ deficiency closure ++ "?strength=1.0" in
      with_requests
        (requests w ++ [{| req_url := url; req_method := "POST";
                           req_body := formData |}])
        (S (inflight w)) w
  end.

(** How a [fetch] can end. *)
Inductive ResponseBody :=
| JsonBody (o : JsObject)
| NotJson (parseError : string).     (* res.json() rejects with this message *)

Inductive FetchOutcome :=
| Rejected (message : string)        (* fetch rejects: no response *)
| Responded (ok : bool) (body : ResponseBody) (blobUrl : string).

(** [handleProcess] after the [await] (lines 211-226). *)
Definition settleFetch (o : FetchOutcome) (w : World) : World :=
  let w :=
    match o with
    | Rejected message => setErrorMessage (str message) w
    | Responded false (JsonBody errorData) _ =>
        (* throw new Error(errorData.error || "Failed to process image") *)
        setErrorMessage
          (js_or (field errorData "error") (str "Failed to process image")) w
    | Responded false (NotJson message) _ => setErrorMessage (str message) w
    | Responded true _ url => setImageURL (str url) w
    end in
  setIsLoading false w.

(** The socket handlers (lines 32-68) registered by the render [closure]. *)
Definition onConnect (w : World) : World :=
  setErrorMessage null w.

Definition onConnectError (closure : State) (message : string) (w : World)
  : World :=
  let w := setErrorMessage
             (str ("Connection error: " ++ message
                   ++ ". Please check if the server is running.")) w in
  if isVideoStreaming closure then stopVideoStreaming w else w.

Definition onProcessedFrame (data : JsObject) (w : World) : World :=
  setProcessedVideoFrame (field data "frame") w.

Definition onError (data : JsObject) (w : World) : World :=
  setErrorMessage (field data "message") w.

Definition onDisconnect (closure : State) (reason : string) (w : World)
  : World :=
  if String.eqb reason "io server disconnect"
     || String.eqb reason "transport close"
  then
    let w := setErrorMessage (str "Disconnected from server. Please try again.") w in
    if isVideoStreaming closure then stopVideoStreaming w else w
  else w.

(** The [onplaying] handler of the mounted [VideoStreamComponent]
    (lines 259-265). *)
Definition onPlaying (closure : State) (w : World) : World :=
  if isVideoStreaming closure then w
  else snd (setTimeout (AutoStart closure) 500 w).

(** The [onChange] of the [<select>] (lines 634-639). *)
Definition onSelectChange (closure : State) (value : string) (w : World)
  : World :=
  let w := setDeficiency value w in
  if isVideoMode closure && isVideoStreaming closure
  then setProcessedVideoFrame null w
  else w.

(** What the page shows in its error banner (lines 950-964). *)
Definition visibleError (st : State) : option string :=
  match errorMessage st with
  | str s => if truthy (str s) then Some s else None
  | _ => None
  end.

(** ** Events *)

Inductive Event :=
| OpenCameraClick
| CameraDenied                                  (* CameraComponent: getUserMedia rejects *)
| ShutterClick (blob : option (string * string))
| ProcessClick
| FetchSettled (o : FetchOutcome)
| ResetClick                                    (* "Retake" and "Take New Photo" *)
| PhotoModeClick
| VideoModeClick
| SwitchToPhotoClick
| SelectChange (o : DeficiencyOption)
| StartStreamingClick
| StopStreamingClick
| VideoPlaying                                  (* the stream's video element starts playing *)
| StreamCameraDenied                            (* VideoStreamComponent: getUserMedia rejects *)
| SocketConnect
| SocketConnectError (message : string)
| SocketProcessedFrame (data : JsObject)
| SocketError (data : JsObject)
| SocketDisconnect (reason : string)
| Elapse (env : Dom).                           (* one millisecond passes *)

Definition absent {A} (o : option A) : bool :=
  match o with
  | None => true
  | Some _ => false
  end.

Definition cameraError : string :=
  "Unable to access camera. Please check permissions.".

Definition with_connected (b : bool) (s : Socket) : Socket :=
  {| sock_id := sock_id s; connected := b; sock_closure := sock_closure s |}.

(** The handler of an event.  An element reacts only while the JSX of the
    render on screen contains it (lines 287-459 and 534-981); its handler
    is the one that render created.  [VideoStreamComponent] and
    [CameraComponent] are declared inside [App], so every render of [App]
    mounts them anew: the [onplaying] handler of the mounted video element
    is the one of the render on screen.  A timeout it has armed is never
    cleared and fires with the render that armed it.  The [catch] of a
    rejected [getUserMedia] (lines 268-276 and 473-479) has no such
    condition: it writes the cells whenever the rejection arrives, also
    after its component has left the screen.  The local cells
    [videoReady] and [streamError], which only grey out the start button,
    are left to the environment. *)
Definition handle (e : Event) (w : World) : World :=
  let r := rendered w in
  match e with
  | OpenCameraClick =>
      if negb (isVideoMode r) && negb (cameraActive r) && absent (capturedImage r)
      then setCameraActive true w else w
  | CameraDenied =>
      setErrorMessage (str cameraError) (setCameraActive false w)
  | ShutterClick blob =>
      if negb (isVideoMode r) && cameraActive r then captureImage blob w else w
  | ProcessClick =>
      if negb (isVideoMode r) && truthy (previewURL r)
         && negb (truthy (imageURL r)) && negb (isLoading r)
      then handleProcess r w else w
  | FetchSettled o =>
      match inflight w with
      | S n => settleFetch o (with_requests (requests w) n w)
      | O => w
      end
  | ResetClick =>
      if negb (isVideoMode r) && (truthy (previewURL r) || truthy (imageURL r))
      then resetCapture w else w
  | PhotoModeClick => if isVideoMode r then toggleVideoMode r w else w
  | VideoModeClick => if isVideoMode r then w else toggleVideoMode r w
  | SwitchToPhotoClick => if isVideoMode r then toggleVideoMode r w else w
  | SelectChange o => onSelectChange r (option_value o) w
  | StartStreamingClick =>
      if isVideoMode r && negb (isVideoStreaming r)
      then startVideoStreaming r w else w
  | StopStreamingClick =>
      if isVideoMode r && isVideoStreaming r then stopVideoStreaming w else w
  | VideoPlaying => if isVideoMode r then onPlaying r w else w
  | StreamCameraDenied => setErrorMessage (str cameraError) w
  | SocketConnect =>
      match socketRef w with
      | Some s => onConnect (with_socketRef (Some (with_connected true s)) w)
      | None => w
      end
  | SocketConnectError message =>
      match socketRef w with
      | Some s => onConnectError (sock_closure s) message w
      | None => w
      end
  | SocketProcessedFrame data =>
      match socketRef w with
      | Some s => onProcessedFrame data w
      | None => w
      end
  | SocketError data =>
      match socketRef w with
      | Some s => onError data w
      | None => w
      end
  | SocketDisconnect reason =>
      match socketRef w with
      | Some s =>
          onDisconnect (sock_closure s) reason
            (with_socketRef (Some (with_connected false s)) w)
      | None => w
      end
  | Elapse _ => w
  end.

(** ** Time *)

Definition with_due (d : nat) (t : Timer) : Timer :=
  {| timer_id := timer_id t; due := d; kind := kind t; callback := callback t |}.

Definition reschedule (id d : nat) (w : World) : World :=
  with_timers
    ((λ t, if timer_id t =? id then with_due d t else t) <$> timers w) w.

Definition runCallback (env : Dom) (cb : Callback) (w : World) : World :=
  match cb with
  | FrameCapture closure =>
      captureFrame closure env (with_attempts (now w :: attempts w) w)
  | AutoStart closure => startVideoStreaming closure w
  end.

(** The timer [id] fires if it is still in the table and due; an interval
    is scheduled again, a timeout is removed.  React commits after the
    callback. *)
Definition fire (env : Dom) (id : nat) (w : World) : World :=
  match List.find (λ t, timer_id t =? id) (timers w) with
  | Some t =>
      if due t <=? now w then
        let w := match kind t with
                 | Interval delay => reschedule id (now w + delay) w
                 | Timeout => clearInterval id w
                 end in
        commit (runCallback env (callback t) w)
      else w
  | None => w
  end.

Definition due_ids (w : World) : list nat :=
  timer_id <$> List.filter (λ t, due t <=? now w) (timers w).

(** One millisecond passes; the timers that are due fire in the order in
    which they were set. *)
Definition elapse (env : Dom) (w : World) : World :=
  let w := with_now (S (now w)) w in
  fold_left (λ w id, fire env id w) (due_ids w) w.

Definition step (e : Event) (w : World) : World :=
  match e with
  | Elapse env => elapse env w
  | _ => commit (handle e w)
  end.

Definition run (evs : list Event) (w : World) : World :=
  fold_left (λ w e, step e w) evs w.

(** ** Reading a decimal literal

    The text of the [strength] query parameter as a number. *)

Definition digit (a : Ascii.ascii) : option nat :=
  let n := Ascii.nat_of_ascii a in
  if (48 <=? n) && (n <=? 57) then Some (n - 48) else None.

(** [digits s acc scale]: the digits of [s] appended to [acc];
    [scale] counts them as a power of ten. *)
Fixpoint digits (s : string) (acc : nat) (scale : nat) : option (nat * nat) :=
  match s with
  | EmptyString => Some (acc, scale)
  | String a s' =>
      match digit a with
      | Some d => digits s' (10 * acc + d) (10 * scale)
      | None => None
      end
  end.

Fixpoint split_at_dot (s : string) : string * option string :=
  match s with
  | EmptyString => (EmptyString, None)
  | String a s' =>
      if Ascii.eqb a "."%char then (EmptyString, Some s')
      else let '(i, f) := split_at_dot s' in (String a i, f)
  end.

Definition decimal (s : string) : option Q :=
  let '(i, f) := split_at_dot s in
  match i with
  | EmptyString => None
  | _ =>
      match digits i 0 1 with
      | Some (whole, _) =>
          match f with
          | None => Some (inject_Z (Z.of_nat whole))
          | Some EmptyString => None
          | Some frac =>
              match digits frac 0 1 with
              | Some (num, den) =>
                  Some (Qplus (inject_Z (Z.of_nat whole))
                              (Qmake (Z.of_nat num) (Pos.of_nat den)))
              | None => None
              end
          end
      | None => None
      end
  end.

(** ** Invariants *)

Definition closure_of (cb : Callback) : State :=
  match cb with
  | FrameCapture c => c
  | AutoStart c => c
  end.

(** The selected deficiency is one of the three option values. *)
Definition sel_ok (st : State) : Prop := deficiency st ∈ selectors.

(** A request as [handleProcess] builds it. *)
Definition request_ok (host : string) (r : Request) : Prop :=
  ∃ (d strength : string) (image : File) (q : Q),
    d ∈ selectors ∧
    req_url r = "http://" ++ host ++ ":5000/correct/" ++ d
                ++ "?strength=" ++ strength ∧
    req_method r = "POST" ∧
    req_body r = [("image", image)] ∧
    strength = "1.0" ∧ decimal strength = Some q ∧ (0 <= q <= 1)%Q.

(** A message as the interval callback emits it. *)
Definition frame_ok (e : Emit) : Prop :=
  em_event e = "video_frame" ∧
  ∃ f d : string, em_data e = videoFrame f d ∧
    String.prefix jpegPrefix f = true ∧ d ∈ selectors.

Record Inv (host : string) (w : World) : Prop := {
  inv_host : VITE_API_URL w = host;
  inv_hooks : sel_ok (hooks w);
  inv_rendered : sel_ok (rendered w);
  inv_socket : ∀ s, socketRef w = Some s → sel_ok (sock_closure s);
  inv_timers : Forall (λ t, sel_ok (closure_of (callback t))) (timers w);
  inv_requests : Forall (request_ok host) (requests w);
  inv_emitted : Forall frame_ok (emitted w)
}.

(** Two capture attempts are at least 100 ms apart (newest first). *)
Fixpoint spaced (l : list nat) : Prop :=
  match l with
  | [] => True
  | a :: earlier => Forall (λ b, b + 100 ≤ a) earlier ∧ spaced earlier
  end.

(** The timer table against [streamIntervalRef] and the clock. *)
Record Clock (w : World) : Prop := {
  c_next : 0 < nextTimer w;
  c_fresh : Forall (λ t, 0 < timer_id t < nextTimer w) (timers w);
  c_nodup : NoDup (timer_id <$> timers w);
  c_interval : Forall (λ t, is_interval t = true →
                 kind t = Interval 100 ∧
                 streamIntervalRef w = Some (timer_id t)) (timers w);
  c_callback : Forall (λ t, match callback t with
                           | FrameCapture _ => is_interval t = true
                           | AutoStart _ => is_interval t = false
                           end) (timers w);
  c_past : Forall (λ a, a ≤ now w) (attempts w);
  c_gap : Forall (λ t, is_interval t = true →
             Forall (λ a, a + 100 ≤ due t) (attempts w)) (timers w);
  c_spaced : spaced (attempts w);
  c_ref : ∀ id, streamIntervalRef w = Some id → 0 < id
}.

(** Between two events React has committed every pending update. *)
Definition Settled (w : World) : Prop := rendered w = hooks w.

(** No interval timer is in the table. *)
Definition no_intervals (w : World) : Prop :=
  Forall (λ t, is_interval t = false) (timers w).

(** ** The conditions of one interval tick *)

Definition socket_connected (w : World) : Prop :=
  ∃ s, socketRef w = Some s ∧ connected s = true.

Definition enough_data (env : Dom) : Prop :=
  ∃ v, videoElement env = Some v ∧ readyState v = HAVE_ENOUGH_DATA.

(** The frame is the canvas, whose sides are [videoWidth || 640] and
    [videoHeight || 480]. *)
Definition frame_size_positive (env : Dom) : Prop :=
  ∃ v, videoElement env = Some v ∧
       (0 < num_or (videoWidth v) 640)%Z ∧ (0 < num_or (videoHeight v) 480)%Z.

Definition jpeg_captured (env : Dom) : Prop :=
  ∃ f, capture env = DataURL f ∧ String.prefix jpegPrefix f = true.

Definition ready_to_emit (w : World) (env : Dom) : Prop :=
  socket_connected w ∧ enough_data env ∧ frame_size_positive env ∧
  jpeg_captured env.

(** ** Sample runs *)

Definition sampleDom : Dom := {|
  videoElement := Some {| readyState := 4; videoWidth := 640; videoHeight := 480 |};
  context2d := true;
  capture := DataURL "data:image/jpeg;base64,/9j/4AAQSkZJRg=="
|}.

Definition sampleFrame (selector : string) : Emit := {|
  em_socket := 2;
  em_event := "video_frame";
  em_data := videoFrame "data:image/jpeg;base64,/9j/4AAQSkZJRg==" selector
|}.

(** Video mode is entered and the camera starts playing, which arms the
    delayed start of line 261; the user presses "Start Streaming" before
    it fires.  The commit that follows the click runs the clean-up of the
    effect, which clears the interval the click has set and replaces the
    socket.  The delayed start then runs [startVideoStreaming] of the
    first video-mode render; [isVideoStreaming] is already true, so no
    commit follows and its interval stays.  After 600 ms one frame has
    been sent. *)
Definition streaming_trace : list Event :=
  [VideoModeClick; SocketConnect; VideoPlaying; StartStreamingClick;
   SocketConnect] ++ repeat (Elapse sampleDom) 600.

(** The user then selects protanopia; 100 ms later the next tick runs. *)
Definition switch_trace : list Event :=
  SelectChange Protanopia :: repeat (Elapse sampleDom) 100.

(** Video mode is entered, the socket connects, the user presses "Start
    Streaming", the new socket connects, and a second passes with the
    camera ready all the time. *)
Definition pressed_start_trace : list Event :=
  [VideoModeClick; SocketConnect; StartStreamingClick; SocketConnect]
  ++ repeat (Elapse sampleDom) 1000.

(** A photo is taken and submitted. *)
Definition photo_trace : list Event :=
  [OpenCameraClick; ShutterClick (Some ("bits", "blob:preview")); ProcessClick].

(** ** More invariants of a run *)

(** The socket against a render: there is one exactly in video mode, and
    its handlers were created by a render with the same two dependencies. *)
Definition socket_matches (st : State) (sref : option Socket) : Prop :=
  match sref with
  | Some s => isVideoMode st = true ∧ deps (sock_closure s) = deps st
  | None => isVideoMode st = false
  end.

(** A file as [captureImage] names it. *)
Definition camera_file (f : File) : Prop :=
  file_name f = "camera-capture.jpg" ∧ file_type f = "image/jpeg".

Record Sound (w : World) : Prop := {
  so_socket : socket_matches (rendered w) (socketRef w);
  so_ref : ∀ id, streamIntervalRef w = Some id →
                 isVideoStreaming (hooks w) = true;
  so_fetch : inflight w = if isLoading (hooks w) then 1 else 0;
  so_photo : match capturedImage (hooks w) with
             | Some f => camera_file f ∧ ∃ u, previewURL (hooks w) = str u
             | None => previewURL (hooks w) = null
             end
}.

(** The emitted frames against the clock: each one has its attempt, and
    no attempt is earlier than 100 ms. *)
Record Rate (w : World) : Prop := {
  r_emitted : length (emitted w) ≤ length (attempts w);
  r_attempts : Forall (λ a, 100 ≤ a) (attempts w);
  r_due : Forall (λ t, is_interval t = true → 100 ≤ due t) (timers w)
}.

(** ** The colour engine

    The server side (DeficiencyModel and Corrector) is not among the
    sources of the client; its two functions are modelled from the
    specification, over exact rationals. *)

Module Engine.

Local Open Scope Q_scope.

(** The closed enumeration of section 3. *)
Inductive DeficiencyType := protan | deutan | tritan.

(** A colour in cone space: the responses of the long, medium and short
    cones. *)
Record ConeColor := {
  ch0 : Q;
  ch1 : Q;
  ch2 : Q
}.

Record Matrix := {
  row0 : ConeColor;
  row1 : ConeColor;
  row2 : ConeColor
}.

Definition vec (a b c : Q) : ConeColor := {| ch0 := a; ch1 := b; ch2 := c |}.

Definition dot (a b : ConeColor) : Q :=
  ch0 a * ch0 b + ch1 a * ch1 b + ch2 a * ch2 b.

Definition apply (m : Matrix) (c : ConeColor) : ConeColor :=
  vec (dot (row0 m) c) (dot (row1 m) c) (dot (row2 m) c).

(** Modelled from the spec: the table of per-deficiency projection
    matrices is missing from the sources.  Section 4.2: the projection
    "zeroes out the discriminative component the deficient viewer cannot
    resolve while preserving the two components they can", and it is "a
    fixed linear map per type"; section 3 makes it a 3x3 matrix. *)
Definition projection (d : DeficiencyType) : Matrix :=
  match d with
  | protan => {| row0 := vec 0 0 0; row1 := vec 0 1 0; row2 := vec 0 0 1 |}
  | deutan => {| row0 := vec 1 0 0; row1 := vec 0 0 0; row2 := vec 0 0 1 |}
  | tritan => {| row0 := vec 1 0 0; row1 := vec 0 1 0; row2 := vec 0 0 0 |}
  end.

(** Modelled from the spec: [simulate] of the DeficiencyModel is missing
    from the sources.  Section 4.2: [simulate(ConeColor, DeficiencyType)]
    "projects the color onto the confusion plane for that deficiency". *)
Definition simulate (c : ConeColor) (d : DeficiencyType) : ConeColor :=
  apply (projection d) c.

Definition add (a b : ConeColor) : ConeColor :=
  vec (ch0 a + ch0 b) (ch1 a + ch1 b) (ch2 a + ch2 b).

Definition sub (a b : ConeColor) : ConeColor :=
  vec (ch0 a - ch0 b) (ch1 a - ch1 b) (ch2 a - ch2 b).

Definition scale (k : Q) (a : ConeColor) : ConeColor :=
  vec (k * ch0 a) (k * ch1 a) (k * ch2 a).

(** Two colours are the same when their channels are equal numbers. *)
Definition same (a b : ConeColor) : Prop :=
  ch0 a == ch0 b /\ ch1 a == ch1 b /\ ch2 a == ch2 b.

(** The largest difference over the three channels. *)
Definition distance (a b : ConeColor) : Q :=
  Qmax (Qabs (ch0 a - ch0 b))
       (Qmax (Qabs (ch1 a - ch1 b)) (Qabs (ch2 a - ch2 b))).

Section Corrector.

(** The top of the valid channel range: section 3 allows an encoding over
    [0,1] or over [0,255]. *)
Variable top : Q.

(** How the error is spread over the channels: the specification names
    "a fixed pair of safe channel indices" per deficiency and gives no
    weights, so the matrix that spreads the error is left open. *)
Variable redistribution : DeficiencyType -> Matrix.

Definition clamp (x : Q) : Q := Qmax 0 (Qmin top x).

Definition clamp_color (c : ConeColor) : ConeColor :=
  vec (clamp (ch0 c)) (clamp (ch1 c)) (clamp (ch2 c)).

(** In the valid range. *)
Definition valid (c : ConeColor) : Prop :=
  0 <= ch0 c <= top /\ 0 <= ch1 c <= top /\ 0 <= ch2 c <= top.

(** Modelled from the spec: [correct] of the Corrector is missing from the
    sources.  Section 4.3: "compute error = original - simulated;
    redistribute error, scaled by strength, into the channel(s) the
    deficiency type does NOT impair"; "values must be clamped to the valid
    color range after blending". *)
Definition correct (original simulated : ConeColor) (d : DeficiencyType)
  (strength : Q) : ConeColor :=
  let error := sub original simulated in
  clamp_color (add original (scale strength (apply (redistribution d) error))).

End Corrector.

End Engine.

(** * Facts *)

Ltac unfold_setters :=
  unfold setCapturedImage, setDeficiency, setImageURL, setPreviewURL,
    setIsLoading, setCameraActive, setErrorMessage, setIsVideoMode,
    setIsVideoStreaming, setProcessedVideoFrame in *.

(** ** The timer table *)

Lemma Clock_initial host : Clock (initial host).
Proof.
  constructor; simpl; try discriminate; try constructor; lia.
Qed.

(** A write to the hooks, the socket or the logs leaves the clockwork
    alone. *)
Lemma Clock_same w w' :
  timers w' = timers w → streamIntervalRef w' = streamIntervalRef w →
  now w' = now w → nextTimer w' = nextTimer w → attempts w' = attempts w →
  Clock w → Clock w'.
Proof.
  intros Ht Hr Hn Hx Ha [].
  constructor; rewrite ?Ht, ?Hr, ?Hn, ?Hx, ?Ha; assumption.
Qed.

Lemma Clock_clearInterval id w : Clock w → Clock (clearInterval id w).
Proof.
  intros [C1 C2 C3 C4 C5 C6 C7 C8 C9].
  assert (Hsub : ∀ t, t ∈ filter (λ t, timer_id t ≠ id) (timers w) → t ∈ timers w).
  { intros t Ht. apply list_elem_of_filter in Ht. tauto. }
  rewrite Forall_forall in C2, C4, C5, C7.
  constructor; simpl; try assumption.
  - apply Forall_forall. intros t Ht. apply C2, Hsub, Ht.
  - eapply sublist_NoDup; [exact C3 |]. apply fmap_sublist, sublist_filter.
  - apply Forall_forall. intros t Ht. apply C4, Hsub, Ht.
  - apply Forall_forall. intros t Ht. apply C5, Hsub, Ht.
  - apply Forall_forall. intros t Ht. apply C7, Hsub, Ht.
Qed.

Lemma no_intervals_without_ref w :
  Clock w →
  match streamIntervalRef w with Some (S _) => False | _ => True end →
  Forall (λ t, is_interval t = false) (timers w).
Proof.
  intros C Href. apply Forall_forall. intros t Ht.
  destruct (is_interval t) eqn:E; [exfalso | reflexivity].
  pose proof (c_interval _ C) as HI. rewrite Forall_forall in HI.
  destruct (HI t Ht E) as [_ Hs].
  pose proof (c_fresh _ C) as HF. rewrite Forall_forall in HF.
  specialize (HF t Ht). rewrite Hs in Href.
  destruct (timer_id t); [lia | exact Href].
Qed.

(** After [clearInterval(streamIntervalRef.current)] no interval is left
    in the table. *)
Lemma Clock_cleared w :
  Clock w →
  let w' := match streamIntervalRef w with
            | Some (S _ as id) => clearInterval id w
            | _ => w
            end in
  Clock w' ∧ Forall (λ t, is_interval t = false) (timers w').
Proof.
  intros C. destruct (streamIntervalRef w) as [[|n]|] eqn:Href; simpl.
  1,3: split; [assumption |
               apply no_intervals_without_ref; [assumption | rewrite Href; exact I]].
  split; [apply Clock_clearInterval, C |].
  apply Forall_forall. intros t Ht. simpl in Ht.
  apply list_elem_of_filter in Ht as [Hne Hin].
  destruct (is_interval t) eqn:E; [exfalso | reflexivity].
  pose proof (c_interval _ C) as HI. rewrite Forall_forall in HI.
  destruct (HI t Hin E) as [_ Hs]. congruence.
Qed.

Lemma Clock_setTimeout closure delay w :
  Clock w → Clock (snd (setTimeout (AutoStart closure) delay w)).
Proof.
  intros [C1 C2 C3 C4 C5 C6 C7 C8 C9]. constructor; simpl; try assumption.
  - lia.
  - apply Forall_app. split.
    + eapply Forall_impl; [exact C2 |]. simpl. intros; lia.
    + apply Forall_singleton. simpl. lia.
  - rewrite fmap_app. apply NoDup_app.
    repeat split; [assumption | | apply NoDup_singleton].
    intros x Hx Hx'. apply list_elem_of_singleton in Hx'. simpl in Hx'. subst x.
    apply list_elem_of_fmap in Hx as (t & Hid & Ht).
    rewrite Forall_forall in C2. specialize (C2 t Ht). lia.
  - apply Forall_app. split; [assumption |].
    apply Forall_singleton. unfold is_interval. simpl. discriminate.
  - apply Forall_app. split; [assumption |]. apply Forall_singleton. reflexivity.
  - apply Forall_app. split; [assumption |].
    apply Forall_singleton. unfold is_interval. simpl. discriminate.
Qed.

Lemma Clock_setInterval closure w :
  Clock w → Forall (λ t, is_interval t = false) (timers w) →
  Clock (with_streamIntervalRef (Some (nextTimer w))
           (snd (setInterval (FrameCapture closure) 100 w))).
Proof.
  intros [C1 C2 C3 C4 C5 C6 C7 C8 C9] Hno. constructor; simpl; try assumption.
  - lia.
  - apply Forall_app. split.
    + eapply Forall_impl; [exact C2 |]. simpl. intros; lia.
    + apply Forall_singleton. simpl. lia.
  - rewrite fmap_app. apply NoDup_app.
    repeat split; [assumption | | apply NoDup_singleton].
    intros x Hx Hx'. apply list_elem_of_singleton in Hx'. simpl in Hx'. subst x.
    apply list_elem_of_fmap in Hx as (t & Hid & Ht).
    rewrite Forall_forall in C2. specialize (C2 t Ht). lia.
  - apply Forall_app. split.
    + eapply Forall_impl; [exact Hno |]. simpl. intros t E1 E2. congruence.
    + apply Forall_singleton. simpl. auto.
  - apply Forall_app. split; [assumption |]. apply Forall_singleton. reflexivity.
  - apply Forall_app. split.
    + eapply Forall_impl; [exact Hno |]. simpl. intros t E1 E2. congruence.
    + apply Forall_singleton. simpl. intros _.
      eapply Forall_impl; [exact C6 |]. simpl. intros; lia.
  - intros id E. simplify_eq. exact C1.
Qed.

Lemma Clock_startVideoStreaming closure w :
  Clock w → Clock (startVideoStreaming closure w).
Proof.
  intros C. unfold startVideoStreaming.
  set (w1 := setIsVideoStreaming true (with_startCalls (S (startCalls w)) w)).
  assert (C1 : Clock w1) by (apply (Clock_same w); auto).
  destruct (Clock_cleared w1 C1) as [C2 Hno].
  set (w2 := match streamIntervalRef w1 with
             | Some (S _ as id) => clearInterval id w1
             | _ => w1
             end) in *.
  apply (Clock_setInterval closure w2 C2 Hno).
Qed.

Lemma Clock_unref w :
  Clock w →
  Clock (match streamIntervalRef w with
         | Some (S _ as id) => with_streamIntervalRef None (clearInterval id w)
         | _ => w
         end).
Proof.
  intros C. destruct (Clock_cleared w C) as [C' Hno].
  destruct (streamIntervalRef w) as [[|n]|] eqn:Href; try assumption.
  destruct C' as [C1 C2 C3 C4 C5 C6 C7 C8 C9].
  constructor; simpl in *; try assumption; [| discriminate].
  eapply Forall_impl; [exact Hno |]. simpl. intros t E1 E2. congruence.
Qed.

Lemma Clock_stopVideoStreaming w : Clock w → Clock (stopVideoStreaming w).
Proof.
  intros C. unfold stopVideoStreaming.
  apply (Clock_unref (setProcessedVideoFrame null (setIsVideoStreaming false w))).
  apply (Clock_same w); auto.
Qed.

Lemma Clock_effectCleanup w : Clock w → Clock (effectCleanup w).
Proof.
  intros C. unfold effectCleanup. apply Clock_unref.
  destruct (socketRef w); [apply (Clock_same w); auto | assumption].
Qed.

Lemma Clock_effectBody closure w : Clock w → Clock (effectBody closure w).
Proof.
  intros C. unfold effectBody.
  destruct (isVideoMode closure), (socketRef w); try assumption.
  apply (Clock_same w); auto.
Qed.

Lemma Clock_commit w : Clock w → Clock (commit w).
Proof.
  intros C. unfold commit. case_bool_decide.
  - apply (Clock_same w); auto.
  - apply Clock_effectBody, Clock_effectCleanup. apply (Clock_same w); auto.
Qed.

(** The interval callback writes nothing but the log of emitted messages. *)
Lemma captureFrame_only_emits closure env w :
  with_emitted (emitted w) (captureFrame closure env w) = w.
Proof.
  unfold captureFrame, emit.
  repeat (match goal with
          | |- context [match ?x with _ => _ end] => destruct x
          end; simpl); destruct w; reflexivity.
Qed.

(** What it emits depends on the socket and the document only. *)
Lemma captureFrame_emitted closure env w1 w2 :
  socketRef w1 = socketRef w2 → emitted w1 = emitted w2 →
  emitted (captureFrame closure env w1) = emitted (captureFrame closure env w2).
Proof.
  intros Es Ee. unfold captureFrame, emit. rewrite Es.
  repeat (match goal with
          | |- context [match ?x with _ => _ end] => destruct x
          end; simpl); rewrite ?Ee; reflexivity.
Qed.

Lemma Clock_captureFrame closure env w :
  Clock w → Clock (captureFrame closure env w).
Proof.
  intros C. pose proof (captureFrame_only_emits closure env w) as E.
  apply (Clock_same w); try assumption; rewrite <- E at 2; reflexivity.
Qed.

(** Any composition of the pieces above keeps the clockwork sound. *)
Ltac clock :=
  repeat first
    [ assumption
    | apply Clock_commit
    | apply Clock_stopVideoStreaming
    | apply Clock_startVideoStreaming
    | apply Clock_captureFrame
    | apply Clock_setTimeout
    | match goal with
      | |- Clock (if ?b then _ else _) => destruct b
      | |- Clock (match ?x with _ => _ end) => destruct x
      | |- context [match ?x with _ => _ end] => destruct x
      | H : Clock ?w |- Clock _ =>
          apply (Clock_same w); [reflexivity .. | exact H]
      end ].

Lemma Clock_handle e w : Clock w → Clock (handle e w).
Proof.
  intros C. destruct e; unfold handle, toggleVideoMode, resetCapture,
    captureImage, handleProcess, settleFetch, onConnect, onConnectError,
    onProcessedFrame, onError, onDisconnect, onPlaying, onSelectChange.
  all: clock.
Qed.

Lemma reschedule_ids id d w :
  timer_id <$> timers (reschedule id d w) = timer_id <$> timers w.
Proof.
  simpl. rewrite <- list_fmap_compose. apply list_fmap_ext.
  intros i t _. simpl. destruct (timer_id t =? id); reflexivity.
Qed.

Lemma elem_of_reschedule id d w t' :
  t' ∈ timers (reschedule id d w) →
  ∃ t, t ∈ timers w ∧ timer_id t' = timer_id t ∧ kind t' = kind t ∧
       callback t' = callback t ∧ is_interval t' = is_interval t ∧
       due t' = (if timer_id t =? id then d else due t).
Proof.
  simpl. intros H. apply list_elem_of_fmap in H as (t & -> & Ht).
  exists t. destruct (timer_id t =? id); auto 10.
Qed.

(** One run of the interval callback: the timer is scheduled 100 ms
    ahead and the attempt is logged. *)
Lemma Clock_tick t w :
  Clock w → t ∈ timers w → is_interval t = true → due t ≤ now w →
  Clock (with_attempts (now w :: attempts w)
           (reschedule (timer_id t) (now w + 100) w)).
Proof.
  intros [C1 C2 C3 C4 C5 C6 C7 C8 C9] Ht Hi Hdue.
  rewrite Forall_forall in C2, C4, C5, C7.
  constructor.
  - exact C1.
  - apply Forall_forall. intros t' H'.
    apply elem_of_reschedule in H' as (t0 & H0 & -> & _). apply C2, H0.
  - change (timers (with_attempts (now w :: attempts w)
              (reschedule (timer_id t) (now w + 100) w)))
      with (timers (reschedule (timer_id t) (now w + 100) w)).
    rewrite reschedule_ids. exact C3.
  - apply Forall_forall. intros t' H'.
    apply elem_of_reschedule in H' as (t0 & H0 & -> & -> & _ & -> & _).
    apply C4, H0.
  - apply Forall_forall. intros t' H'.
    apply elem_of_reschedule in H' as (t0 & H0 & _ & _ & -> & -> & _).
    apply C5, H0.
  - simpl. constructor; [lia | exact C6].
  - apply Forall_forall. intros t' H' Hi'.
    apply elem_of_reschedule in H' as (t0 & H0 & _ & _ & _ & Hi0 & Hd).
    rewrite Hi0 in Hi'.
    destruct (C4 t0 H0 Hi') as [_ R0]. destruct (C4 t Ht Hi) as [_ R].
    assert (E : timer_id t0 = timer_id t) by congruence.
    rewrite E, Nat.eqb_refl in Hd. rewrite Hd. simpl.
    constructor; [lia |].
    eapply Forall_impl; [exact C6 |]. simpl. intros; lia.
  - simpl. split; [| exact C8].
    eapply Forall_impl; [exact (C7 t Ht Hi) |]. simpl. intros; lia.
  - exact C9.
Qed.

Lemma Clock_fire env id w : Clock w → Clock (fire env id w).
Proof.
  intros C. unfold fire.
  destruct (List.find (λ t, timer_id t =? id) (timers w)) as [t|] eqn:F;
    [| assumption].
  apply find_some in F as [Hin Hid]. apply Nat.eqb_eq in Hid.
  apply list_elem_of_In in Hin.
  destruct (due t <=? now w) eqn:Hdue; [| assumption].
  apply Nat.leb_le in Hdue. apply Clock_commit.
  pose proof (c_interval _ C) as HI. rewrite Forall_forall in HI.
  pose proof (c_callback _ C) as HC. rewrite Forall_forall in HC.
  specialize (HI t Hin). specialize (HC t Hin).
  destruct (callback t) as [closure | closure]; simpl.
  - destruct (HI HC) as [-> _]. apply Clock_captureFrame.
    subst id. exact (Clock_tick t w C Hin HC Hdue).
  - apply Clock_startVideoStreaming.
    destruct (kind t) eqn:K; [unfold is_interval in HC; rewrite K in HC;
                              discriminate |].
    apply Clock_clearInterval, C.
Qed.

Lemma Clock_advance w : Clock w → Clock (with_now (S (now w)) w).
Proof.
  intros [C1 C2 C3 C4 C5 C6 C7 C8 C9]. constructor; simpl; try assumption.
  eapply Forall_impl; [exact C6 |]. simpl. intros; lia.
Qed.

Lemma Clock_elapse env w : Clock w → Clock (elapse env w).
Proof.
  intros C. unfold elapse.
  set (w1 := with_now (S (now w)) w).
  assert (C1 : Clock w1) by apply Clock_advance, C.
  generalize (due_ids w1). intros ids. revert C1. generalize w1.
  induction ids as [| id ids IH]; intros w2 C2; simpl; [assumption |].
  apply IH, Clock_fire, C2.
Qed.

Lemma Clock_step e w : Clock w → Clock (step e w).
Proof.
  intros C. destruct e;
    try exact (Clock_commit _ (Clock_handle _ w C)).
  exact (Clock_elapse env w C).
Qed.

Lemma Clock_run evs w : Clock w → Clock (run evs w).
Proof.
  revert w. induction evs as [| e evs IH]; intros w C; simpl; [assumption |].
  apply IH, Clock_step, C.
Qed.

(** ** Selectors, requests and messages *)

Lemma option_value_selector o : option_value o ∈ selectors.
Proof. destruct o; unfold selectors; simpl; set_solver. Qed.

Lemma Inv_initial host : Inv host (initial host).
Proof.
  constructor; simpl; auto; unfold sel_ok, selectors; simpl; set_solver.
Qed.

(** A write that touches none of the fields the invariant reads. *)
Lemma Inv_same host w w' :
  VITE_API_URL w' = VITE_API_URL w →
  deficiency (hooks w') = deficiency (hooks w) →
  deficiency (rendered w') = deficiency (rendered w) →
  (∀ s', socketRef w' = Some s' →
         ∃ s, socketRef w = Some s ∧ sock_closure s' = sock_closure s) →
  timers w' = timers w → requests w' = requests w → emitted w' = emitted w →
  Inv host w → Inv host w'.
Proof.
  intros Hv Hh Hr Hs Ht Hq He [].
  constructor; unfold sel_ok in *; rewrite ?Hv, ?Hh, ?Hr, ?Ht, ?Hq, ?He;
    try assumption.
  intros s' E. destruct (Hs s' E) as (s & E' & ->). eauto.
Qed.

Ltac inv_same w H :=
  apply (Inv_same _ w);
  [ reflexivity | reflexivity | reflexivity
  | simpl; intros ? ?; simplify_eq; eauto
  | reflexivity | reflexivity | reflexivity | exact H ].

Lemma Inv_clearInterval host id w : Inv host w → Inv host (clearInterval id w).
Proof.
  intros []. constructor; simpl; try assumption.
  apply Forall_forall. intros t Ht. apply list_elem_of_filter in Ht as [_ Ht].
  rewrite Forall_forall in inv_timers0. auto.
Qed.

Lemma Inv_setTimer host k cb delay w :
  sel_ok (closure_of cb) → Inv host w → Inv host (snd (setTimer k cb delay w)).
Proof.
  intros Hc []. constructor; simpl; try assumption.
  apply Forall_app. split; [assumption | apply Forall_singleton; exact Hc].
Qed.

Lemma Inv_unref host w :
  Inv host w →
  Inv host (match streamIntervalRef w with
            | Some (S _ as id) => with_streamIntervalRef None (clearInterval id w)
            | _ => w
            end).
Proof.
  intros I. destruct (streamIntervalRef w) as [[|n]|]; try assumption.
  pose proof (Inv_clearInterval host (S n) w I) as I'.
  inv_same (clearInterval (S n) w) I'.
Qed.

Lemma Inv_startVideoStreaming host closure w :
  sel_ok closure → Inv host w → Inv host (startVideoStreaming closure w).
Proof.
  intros Hc I. unfold startVideoStreaming.
  set (w1 := setIsVideoStreaming true (with_startCalls (S (startCalls w)) w)).
  assert (I1 : Inv host w1) by (inv_same w I).
  set (w2 := match streamIntervalRef w1 with
             | Some (S _ as id) => clearInterval id w1
             | _ => w1
             end).
  assert (I2 : Inv host w2).
  { subst w2. destruct (streamIntervalRef w1) as [[|n]|]; try assumption.
    apply Inv_clearInterval, I1. }
  pose proof (Inv_setTimer host (Interval 100) (FrameCapture closure) 100 w2 Hc I2) as I3.
  unfold setInterval.
  inv_same (snd (setTimer (Interval 100) (FrameCapture closure) 100 w2)) I3.
Qed.

Lemma Inv_stopVideoStreaming host w :
  Inv host w → Inv host (stopVideoStreaming w).
Proof.
  intros I. unfold stopVideoStreaming.
  apply (Inv_unref host (setProcessedVideoFrame null (setIsVideoStreaming false w))).
  inv_same w I.
Qed.

Lemma Inv_effectCleanup host w : Inv host w → Inv host (effectCleanup w).
Proof.
  intros I. unfold effectCleanup. apply Inv_unref.
  destruct (socketRef w) eqn:E; [| assumption].
  destruct I. constructor; simpl; try assumption. discriminate.
Qed.

Lemma Inv_effectBody host closure w :
  sel_ok closure → Inv host w → Inv host (effectBody closure w).
Proof.
  intros Hc I. unfold effectBody.
  destruct (isVideoMode closure), (socketRef w); try assumption.
  destruct I. constructor; simpl; try assumption.
  intros s E. simplify_eq. exact Hc.
Qed.

Lemma Inv_commit host w : Inv host w → Inv host (commit w).
Proof.
  intros I. unfold commit.
  assert (I' : Inv host (with_rendered (hooks w) w)).
  { destruct I. constructor; simpl; assumption. }
  case_bool_decide; [assumption |].
  apply Inv_effectBody; [apply I |]. apply Inv_effectCleanup, I'.
Qed.

Lemma frame_ok_emit closure frameData s :
  sel_ok closure → String.prefix jpegPrefix frameData = true →
  frame_ok {| em_socket := sock_id s; em_event := "video_frame";
              em_data := videoFrame frameData (deficiency closure) |}.
Proof. intros Hc Hp. split; [reflexivity |]. eauto. Qed.

Lemma Inv_captureFrame host closure env w :
  sel_ok closure → Inv host w → Inv host (captureFrame closure env w).
Proof.
  intros Hc I. unfold captureFrame.
  destruct (videoElement env) as [v|]; [| assumption].
  destruct (socketRef w) as [s|] eqn:Es; [| assumption].
  destruct (connected s && bool_decide (readyState v = HAVE_ENOUGH_DATA));
    [| assumption].
  destruct ((num_or (videoWidth v) 640 <=? 0)%Z
            || (num_or (videoHeight v) 480 <=? 0)%Z); [assumption |].
  destruct (context2d env); [| assumption].
  destruct (capture env) as [| frameData]; [assumption |].
  destruct (truthy (str frameData)); simpl; [| assumption].
  destruct (String.prefix jpegPrefix frameData) eqn:Hp; [| assumption].
  destruct I. constructor; simpl; try assumption.
  apply Forall_app. split; [assumption |].
  apply Forall_singleton, frame_ok_emit; assumption.
Qed.

Lemma request_ok_intro host d image :
  d ∈ selectors →
  request_ok host
    {| req_url := "http://" ++ host ++ ":5000/correct/" ++ d ++ "?strength=1.0";
       req_method := "POST"; req_body := [("image", image)] |}.
Proof.
  intros Hd. exists d, "1.0", image, (Qplus (inject_Z 1) (Qmake 0 10)).
  repeat split; try assumption; try reflexivity; vm_compute; discriminate.
Qed.

Lemma Inv_handleProcess host closure w :
  sel_ok closure → Inv host w → Inv host (handleProcess closure w).
Proof.
  intros Hc I. unfold handleProcess.
  destruct (capturedImage closure) as [image|]; [| assumption].
  destruct I. constructor; simpl; try assumption.
  apply Forall_app. split; [assumption |].
  apply Forall_singleton. rewrite inv_host0. apply request_ok_intro, Hc.
Qed.

Lemma Inv_setDeficiency host o w :
  Inv host w → Inv host (setDeficiency (option_value o) w).
Proof.
  intros []. constructor; simpl; try assumption. apply option_value_selector.
Qed.

Ltac inv_step :=
  first
    [ assumption
    | apply Inv_commit
    | apply Inv_stopVideoStreaming
    | apply Inv_startVideoStreaming; [solve [eauto using inv_rendered, inv_socket] |]
    | apply Inv_handleProcess; [solve [eauto using inv_rendered] |]
    | apply Inv_setTimer; [solve [simpl; eauto using inv_rendered] |]
    | match goal with
      | |- Inv _ (if ?b then _ else _) => destruct b
      | |- Inv _ (match ?x with _ => _ end) => destruct x eqn:?
      | |- context [match ?x with _ => _ end] => destruct x eqn:?
      | H : Inv ?host ?w |- Inv ?host _ => inv_same w H
      end ].

Lemma Inv_handle host e w : Inv host w → Inv host (handle e w).
Proof.
  intros I. destruct e; unfold handle, toggleVideoMode, resetCapture,
    captureImage, settleFetch, onConnect, onConnectError,
    onProcessedFrame, onError, onDisconnect, onPlaying, setTimeout.
  10: { unfold onSelectChange.
        pose proof (Inv_setDeficiency host o w I) as I'.
        destruct (isVideoMode (rendered w) && isVideoStreaming (rendered w));
          [inv_same (setDeficiency (option_value o) w) I' | exact I']. }
  all: repeat inv_step.
Qed.

Lemma Inv_reschedule host id d w : Inv host w → Inv host (reschedule id d w).
Proof.
  intros []. constructor; simpl; try assumption.
  apply Forall_fmap. eapply Forall_impl; [exact inv_timers0 |].
  simpl. intros t Ht. destruct (timer_id t =? id); exact Ht.
Qed.

Lemma Inv_fire host env id w : Inv host w → Inv host (fire env id w).
Proof.
  intros I. unfold fire.
  destruct (List.find (λ t, timer_id t =? id) (timers w)) as [t|] eqn:F;
    [| assumption].
  apply find_some in F as [Hin _]. apply list_elem_of_In in Hin.
  destruct (due t <=? now w); [| assumption].
  pose proof (inv_timers _ _ I) as HT. rewrite Forall_forall in HT.
  specialize (HT t Hin).
  set (w1 := match kind t with
             | Interval delay => reschedule id (now w + delay) w
             | Timeout => clearInterval id w
             end).
  assert (I1 : Inv host w1).
  { subst w1. destruct (kind t);
      [apply Inv_reschedule | apply Inv_clearInterval]; exact I. }
  apply Inv_commit. destruct (callback t) as [closure | closure]; simpl in *.
  - apply Inv_captureFrame; [exact HT |]. inv_same w1 I1.
  - apply Inv_startVideoStreaming; assumption.
Qed.

Lemma Inv_elapse host env w : Inv host w → Inv host (elapse env w).
Proof.
  intros I. unfold elapse.
  set (w1 := with_now (S (now w)) w).
  assert (I1 : Inv host w1) by (inv_same w I).
  generalize (due_ids w1). intros ids. revert I1. generalize w1.
  induction ids as [| id ids IH]; intros w2 I2; simpl; [assumption |].
  apply IH, Inv_fire, I2.
Qed.

Lemma Inv_step host e w : Inv host w → Inv host (step e w).
Proof.
  intros I. destruct e;
    try exact (Inv_commit _ _ (Inv_handle _ _ w I)).
  exact (Inv_elapse host env w I).
Qed.

Lemma Inv_run host evs w : Inv host w → Inv host (run evs w).
Proof.
  revert w. induction evs as [| e evs IH]; intros w I; simpl; [assumption |].
  apply IH, Inv_step, I.
Qed.

(** ** What a commit leaves alone *)

Lemma effectCleanup_keeps w :
  hooks (effectCleanup w) = hooks w ∧ rendered (effectCleanup w) = rendered w ∧
  emitted (effectCleanup w) = emitted w ∧
  startCalls (effectCleanup w) = startCalls w.
Proof.
  unfold effectCleanup.
  destruct (socketRef w); simpl; destruct (streamIntervalRef w) as [[|n]|];
    simpl; auto.
Qed.

Lemma effectBody_keeps closure w :
  hooks (effectBody closure w) = hooks w ∧
  rendered (effectBody closure w) = rendered w ∧
  emitted (effectBody closure w) = emitted w ∧
  startCalls (effectBody closure w) = startCalls w ∧
  timers (effectBody closure w) = timers w ∧
  streamIntervalRef (effectBody closure w) = streamIntervalRef w.
Proof.
  unfold effectBody. destruct (isVideoMode closure), (socketRef w); simpl; auto 10.
Qed.

Lemma commit_keeps w :
  hooks (commit w) = hooks w ∧ rendered (commit w) = hooks w ∧
  emitted (commit w) = emitted w ∧ startCalls (commit w) = startCalls w.
Proof.
  unfold commit. case_bool_decide; simpl; [auto |].
  destruct (effectBody_keeps (hooks w) (effectCleanup (with_rendered (hooks w) w)))
    as (-> & -> & -> & -> & _).
  destruct (effectCleanup_keeps (with_rendered (hooks w) w))
    as (-> & -> & -> & ->).
  auto.
Qed.

(** With no dependency changed the commit is only a render. *)
Lemma commit_same_deps w :
  deps (rendered w) = deps (hooks w) → commit w = with_rendered (hooks w) w.
Proof. intros E. unfold commit. rewrite bool_decide_eq_true_2; auto. Qed.

Lemma Settled_commit w : Settled (commit w).
Proof. unfold Settled. destruct (commit_keeps w) as (-> & -> & _). reflexivity. Qed.

Lemma Settled_fire env id w : Settled w → Settled (fire env id w).
Proof.
  intros HS. unfold fire.
  destruct (List.find _ _); [| assumption].
  destruct (_ <=? _); [apply Settled_commit | assumption].
Qed.

Lemma Settled_elapse env w : Settled w → Settled (elapse env w).
Proof.
  intros HS. unfold elapse.
  set (w1 := with_now (S (now w)) w).
  assert (S1 : Settled w1) by exact HS.
  generalize (due_ids w1). intros ids. revert S1. generalize w1.
  induction ids as [| id ids IH]; intros w2 S2; simpl; [assumption |].
  apply IH, Settled_fire, S2.
Qed.

Lemma Settled_step e w : Settled w → Settled (step e w).
Proof.
  intros HS. destruct e; try exact (Settled_commit _).
  exact (Settled_elapse env w HS).
Qed.

Lemma Settled_run evs w : Settled w → Settled (run evs w).
Proof.
  revert w. induction evs as [| e evs IH]; intros w HS; simpl; [assumption |].
  apply IH, Settled_step, HS.
Qed.

(** ** No interval, no message *)

Lemma no_intervals_clear id w : no_intervals w → no_intervals (clearInterval id w).
Proof.
  unfold no_intervals. simpl. intros H. apply Forall_forall. intros t Ht.
  apply list_elem_of_filter in Ht as [_ Ht]. rewrite Forall_forall in H. auto.
Qed.

Lemma no_intervals_same w w' :
  timers w' = timers w → no_intervals w → no_intervals w'.
Proof. unfold no_intervals. intros ->. auto. Qed.

Lemma no_intervals_unref w :
  no_intervals w →
  no_intervals (match streamIntervalRef w with
                | Some (S _ as id) => with_streamIntervalRef None (clearInterval id w)
                | _ => w
                end).
Proof.
  intros H. destruct (streamIntervalRef w) as [[|n]|]; try assumption.
  apply (no_intervals_clear (S n)) in H. exact H.
Qed.

Lemma no_intervals_stop w : no_intervals w → no_intervals (stopVideoStreaming w).
Proof.
  intros H. unfold stopVideoStreaming.
  apply (no_intervals_unref (setProcessedVideoFrame null (setIsVideoStreaming false w))).
  exact H.
Qed.

Lemma no_intervals_commit w : no_intervals w → no_intervals (commit w).
Proof.
  intros H. unfold commit. case_bool_decide; [exact H |].
  eapply no_intervals_same; [apply effectBody_keeps |].
  unfold effectCleanup. apply no_intervals_unref.
  simpl. destruct (socketRef w); exact H.
Qed.

Lemma no_intervals_timeout closure delay w :
  no_intervals w → no_intervals (snd (setTimeout (AutoStart closure) delay w)).
Proof.
  unfold no_intervals. simpl. intros H. apply Forall_app. split; [exact H |].
  apply Forall_singleton. reflexivity.
Qed.

Lemma stop_keeps w :
  emitted (stopVideoStreaming w) = emitted w ∧
  startCalls (stopVideoStreaming w) = startCalls w.
Proof.
  unfold stopVideoStreaming. simpl.
  destruct (streamIntervalRef w) as [[|n]|]; simpl; auto.
Qed.

Lemma start_counts closure w :
  startCalls (startVideoStreaming closure w) = S (startCalls w) ∧
  emitted (startVideoStreaming closure w) = emitted w.
Proof.
  unfold startVideoStreaming. simpl.
  destruct (streamIntervalRef w) as [[|n]|]; simpl; auto.
Qed.

(** A handler never emits; it either calls [startVideoStreaming] or
    leaves the table without intervals. *)
Lemma handle_quiet e w :
  emitted (handle e w) = emitted w ∧
  (startCalls (handle e w) = S (startCalls w) ∨
   startCalls (handle e w) = startCalls w ∧
   (no_intervals w → no_intervals (handle e w))).
Proof.
  destruct e; unfold handle, toggleVideoMode, resetCapture,
    captureImage, handleProcess, settleFetch, onConnect, onConnectError,
    onProcessedFrame, onError, onDisconnect, onPlaying, onSelectChange.
  all: repeat match goal with
       | |- context [if ?b then _ else _] => destruct b
       | |- context [match ?x with _ => _ end] => destruct x
       end.
  all: try (split; [reflexivity | right; split; [reflexivity | exact id]]).
  all: try (split; [apply start_counts | left; apply start_counts]).
  all: try match goal with
       | |- context [stopVideoStreaming ?x] =>
           destruct (stop_keeps x) as [E1 E2];
           split; [rewrite E1; reflexivity |
                   right; split; [rewrite E2; reflexivity |
                                  intros H; apply no_intervals_stop; exact H]]
       end.
  all: try (split; [reflexivity |
                    right; split; [reflexivity | apply no_intervals_timeout]]).
Qed.

Lemma captureFrame_startCalls closure env w :
  startCalls (captureFrame closure env w) = startCalls w.
Proof.
  rewrite <- (captureFrame_only_emits closure env w) at 2. reflexivity.
Qed.

Lemma runCallback_startCalls env cb w :
  startCalls w ≤ startCalls (runCallback env cb w).
Proof.
  destruct cb as [c | c]; unfold runCallback.
  - rewrite captureFrame_startCalls. simpl. lia.
  - destruct (start_counts c w) as [-> _]. lia.
Qed.

Lemma fire_startCalls env id w : startCalls w ≤ startCalls (fire env id w).
Proof.
  unfold fire. destruct (List.find _ _) as [t|]; [| lia].
  destruct (_ <=? _); [| lia].
  match goal with
  | |- _ ≤ startCalls (commit (runCallback _ _ ?x)) =>
      destruct (commit_keeps (runCallback env (callback t) x)) as (_ & _ & _ & ->);
      etransitivity; [| apply runCallback_startCalls]
  end.
  destruct (kind t); simpl; lia.
Qed.

Lemma fires_startCalls env ids w :
  startCalls w ≤ startCalls (fold_left (λ w id, fire env id w) ids w).
Proof.
  revert w. induction ids as [| id ids IH]; intros w; simpl; [lia |].
  etransitivity; [apply (fire_startCalls env id w) | apply IH].
Qed.

Lemma step_startCalls e w : startCalls w ≤ startCalls (step e w).
Proof.
  destruct e.
  20: exact (fires_startCalls env _ (with_now (S (now w)) w)).
  all: match goal with
       | |- _ ≤ startCalls (step ?e ?x) =>
           change (step e x) with (commit (handle e x));
           destruct (commit_keeps (handle e x)) as (_ & _ & _ & ->);
           destruct (handle_quiet e x) as [_ [-> | [-> _]]]; lia
       end.
Qed.

Lemma run_startCalls evs w : startCalls w ≤ startCalls (run evs w).
Proof.
  revert w. induction evs as [| e evs IH]; intros w; simpl; [lia |].
  etransitivity; [apply (step_startCalls e w) | apply IH].
Qed.

(** Without an interval in the table a timer that fires can only be the
    delayed start. *)
Lemma fire_quiet env id w :
  Clock w → no_intervals w →
  fire env id w = w ∨ startCalls w < startCalls (fire env id w).
Proof.
  intros C N. unfold fire.
  destruct (List.find (λ t, timer_id t =? id) (timers w)) as [t|] eqn:F;
    [| left; reflexivity].
  apply find_some in F as [Hin _]. apply list_elem_of_In in Hin.
  destruct (due t <=? now w); [right | left; reflexivity].
  pose proof (c_callback _ C) as HC. rewrite Forall_forall in HC.
  specialize (HC t Hin). unfold no_intervals in N. rewrite Forall_forall in N.
  specialize (N t Hin).
  destruct (callback t) as [c | c]; [congruence |].
  match goal with
  | |- _ < startCalls (commit (runCallback _ _ ?x)) =>
      destruct (commit_keeps (runCallback env (AutoStart c) x)) as (_ & _ & _ & ->);
      unfold runCallback; destruct (start_counts c x) as [-> _]
  end.
  destruct (kind t); simpl; lia.
Qed.

Lemma fires_quiet env ids w :
  Clock w → no_intervals w →
  startCalls (fold_left (λ w id, fire env id w) ids w) = startCalls w →
  fold_left (λ w id, fire env id w) ids w = w.
Proof.
  revert w. induction ids as [| id ids IH]; intros w C N E; simpl in *;
    [reflexivity |].
  destruct (fire_quiet env id w C N) as [Ef | Hlt].
  - rewrite Ef in *. apply IH; assumption.
  - pose proof (fires_startCalls env ids (fire env id w)). lia.
Qed.

Lemma step_quiet e w :
  Clock w → no_intervals w → startCalls (step e w) = startCalls w →
  emitted (step e w) = emitted w ∧ no_intervals (step e w).
Proof.
  intros C N E. destruct e.
  20: { unfold step, elapse in *.
        rewrite (fires_quiet env _ (with_now (S (now w)) w)); auto.
        apply Clock_advance, C. }
  all: match goal with
       | E : startCalls (step ?e ?x) = _ |- _ =>
           change (step e x) with (commit (handle e x)) in *;
           destruct (commit_keeps (handle e x)) as (_ & _ & Ee & Es);
           rewrite Ee; rewrite Es in E;
           destruct (handle_quiet e x) as [-> [Hs | [_ Hn]]];
           [lia | split; [reflexivity | apply no_intervals_commit, Hn, N]]
       end.
Qed.

Lemma run_quiet evs w :
  Clock w → no_intervals w → startCalls (run evs w) = startCalls w →
  emitted (run evs w) = emitted w.
Proof.
  revert w. induction evs as [| e evs IH]; intros w C N E; simpl in *;
    [reflexivity |].
  pose proof (step_startCalls e w). pose proof (run_startCalls evs (step e w)).
  assert (Es : startCalls (step e w) = startCalls w) by lia.
  destruct (step_quiet e w C N Es) as [Ee Hn].
  rewrite <- Ee. apply IH; [apply Clock_step, C | exact Hn | lia].
Qed.

(** * Properties of the client *)

(** ** Streaming *)

(** Every message the client has put on the wire is a [video_frame] whose
    object has the two fields [frame] and [deficiency] and no other; the
    frame is a JPEG data URL and the selector one of the three option
    values. *)
Lemma video_frame_shape host evs :
  Forall (λ e, frame_ok e ∧ dom (em_data e) = {[ "frame"; "deficiency" ]} ∧
               em_data e !! "strength" = None)
    (emitted (run evs (initial host))).
Proof.
  eapply Forall_impl; [exact (inv_emitted _ _ (Inv_run host evs _ (Inv_initial host))) |].
  intros e F. split; [exact F |].
  destruct F as (_ & f & d & -> & _). unfold videoFrame. split.
  - rewrite dom_insert_L, dom_singleton_L. set_solver.
  - rewrite lookup_insert_ne by discriminate.
    rewrite lookup_singleton_ne by discriminate. reflexivity.
Qed.

(** Pressing "Start Streaming" alone does not stream: the commit that
    follows the click runs the effect's clean-up, which clears the
    interval the click has just set. *)
Example start_click_interval_cleared :
  let w := run [VideoModeClick; SocketConnect; StartStreamingClick]
               (initial "localhost") in
  isVideoStreaming (hooks w) = true ∧ timers w = [] ∧ streamIntervalRef w = None.
Proof. vm_compute. auto. Qed.

(** C1.  The failing run: streaming is active with deuteranopia selected,
    the user selects protanopia, and the frame emitted by the next tick
    still carries deuteranopia, where the specification asks for
    protanopia. *)
Theorem selection_change_reaches_no_frame :
  let before := run streaming_trace (initial "localhost") in
  let after := run switch_trace before in
  isVideoStreaming (hooks before) = true ∧
  emitted before = [sampleFrame "deuteranopia"] ∧
  deficiency (hooks after) = "protanopia" ∧
  isVideoStreaming (hooks after) = true ∧
  emitted after = (emitted before ++ [sampleFrame "deuteranopia"])%list.
Proof. vm_compute. auto 10. Qed.

(** C2.  On the same run the last message has exactly the fields [frame]
    and [deficiency], a JPEG data URL and no strength, but its selector is
    not the one currently selected. *)
Theorem frame_selector_is_not_the_current_one :
  let w := run (streaming_trace ++ switch_trace) (initial "localhost") in
  ∃ m, last (emitted w) = Some m ∧
       dom (em_data m) = {[ "frame"; "deficiency" ]} ∧
       em_data m !! "strength" = None ∧
       (∃ f, em_data m !! "frame" = Some f ∧ String.prefix jpegPrefix f = true) ∧
       em_data m !! "deficiency" = Some "deuteranopia" ∧
       deficiency (hooks w) = "protanopia".
Proof.
  exists (sampleFrame "deuteranopia").
  split; [vm_compute; reflexivity |].
  split; [unfold sampleFrame, videoFrame; simpl;
          rewrite dom_insert_L, dom_singleton_L; set_solver |].
  split; [vm_compute; reflexivity |].
  split; [eexists; split; vm_compute; reflexivity |].
  split; vm_compute; reflexivity.
Qed.

(** C9.  One run of the interval callback.  Either it emits nothing, or
    the socket is connected, the video element has enough data, the
    canvas has a positive size and the captured string has the JPEG
    prefix; so when one of these fails nothing is emitted; and in every
    case the hooks, the interval, its ref and the socket are as before. *)
Theorem tick_emits_only_when_ready closure env w :
  let w' := runCallback env (FrameCapture closure) w in
  (emitted w' = emitted w ∨ ready_to_emit w env) ∧
  (¬ ready_to_emit w env → emitted w' = emitted w) ∧
  hooks w' = hooks w ∧ timers w' = timers w ∧
  streamIntervalRef w' = streamIntervalRef w ∧ socketRef w' = socketRef w.
Proof.
  assert (K : ∀ x, hooks (captureFrame closure env x) = hooks x ∧
                   timers (captureFrame closure env x) = timers x ∧
                   streamIntervalRef (captureFrame closure env x)
                   = streamIntervalRef x ∧
                   socketRef (captureFrame closure env x) = socketRef x).
  { intros x. rewrite <- (captureFrame_only_emits closure env x) at 2 4 6 8.
    auto. }
  assert (R : emitted (runCallback env (FrameCapture closure) w) = emitted w ∨
              ready_to_emit w env).
  { unfold runCallback, captureFrame. simpl.
    destruct (videoElement env) as [v|] eqn:Ev; [| left; reflexivity].
    destruct (socketRef w) as [s|] eqn:Es; [| left; reflexivity].
    destruct (connected s) eqn:Ec; [| left; reflexivity].
    case_bool_decide as Er; [| left; reflexivity]. simpl.
    destruct (num_or (videoWidth v) 640 <=? 0)%Z eqn:Ew; [left; reflexivity |].
    destruct (num_or (videoHeight v) 480 <=? 0)%Z eqn:Eh; [left; reflexivity |].
    simpl. destruct (context2d env); [| left; reflexivity].
    destruct (capture env) as [| f] eqn:Ef; [left; reflexivity |].
    destruct (negb (f =? "")%string); [| left; reflexivity]. simpl.
    destruct (String.prefix jpegPrefix f) eqn:Ep; [| left; reflexivity].
    right. apply Z.leb_gt in Ew, Eh.
    split; [exists s; auto |].
    split; [exists v; auto |].
    split; [exists v; auto | exists f; auto]. }
  cbv zeta. split; [| split].
  - exact R.
  - intros Hn. destruct R as [E | Hr]; [exact E | contradiction].
  - exact (K (with_attempts (now w :: attempts w) w)).
Qed.

Lemma tick_emits_only_when_ready_witness :
  let env := {| videoElement := None; context2d := true; capture := Throws |} in
  let w := run streaming_trace (initial "localhost") in
  ¬ ready_to_emit w env ∧
  emitted (runCallback env (FrameCapture (rendered w)) w) = emitted w.
Proof.
  assert (H : ¬ ready_to_emit (run streaming_trace (initial "localhost"))
                {| videoElement := None; context2d := true; capture := Throws |}).
  { intros (_ & (v & E & _) & _). discriminate E. }
  split; [exact H |].
  exact (proj1 (proj2 (tick_emits_only_when_ready _ _ _)) H).
Defined.

Lemma spaced_lookup l i j a b :
  spaced l → i < j → l !! i = Some a → l !! j = Some b → b + 100 ≤ a.
Proof.
  revert i j. induction l as [| x l IH]; intros i j Hs Hij Hi Hj; [discriminate |].
  destruct Hs as [Hx Hs]. destruct j as [| j]; [lia |].
  destruct i as [| i]; simpl in *.
  - simplify_eq. rewrite Forall_forall in Hx. apply Hx.
    eapply list_elem_of_lookup_2, Hj.
  - apply (IH i j); [assumption | lia | assumption | assumption].
Qed.

Lemma one_interval w : Clock w → length (intervals w) ≤ 1.
Proof.
  intros C. unfold intervals.
  pose proof (c_nodup _ C) as ND. pose proof (c_interval _ C) as HI.
  assert (ND' : NoDup (timer_id <$> filter (λ t, is_interval t = true) (timers w))).
  { eapply sublist_NoDup; [exact ND |]. apply fmap_sublist, sublist_filter. }
  assert (Hid : ∀ t, t ∈ filter (λ t, is_interval t = true) (timers w) →
                     streamIntervalRef w = Some (timer_id t)).
  { intros t Ht. apply list_elem_of_filter in Ht as [Hi Ht].
    rewrite Forall_forall in HI. apply HI; assumption. }
  destruct (filter _ (timers w)) as [| t1 [| t2 l]]; simpl; try lia.
  exfalso. simpl in ND'. apply NoDup_cons in ND' as [Hnot _].
  apply Hnot. assert (E : timer_id t1 = timer_id t2).
  { pose proof (Hid t1 ltac:(set_solver)). pose proof (Hid t2 ltac:(set_solver)).
    congruence. }
  rewrite E. set_solver.
Qed.

(** C6.  The failing run: the user has pressed "Start Streaming" with the
    socket connected and the camera ready.  A second later
    [isVideoStreaming] is true and the socket is connected, but the timer
    table holds no interval, the interval callback has not run once and
    no frame has been submitted, where the specification asks for a
    frame every 100 ms while streaming is active. *)
Theorem streaming_active_without_frames :
  let w := run pressed_start_trace (initial "localhost") in
  isVideoMode (hooks w) = true ∧ isVideoStreaming (hooks w) = true ∧
  (∃ s, socketRef w = Some s ∧ connected s = true) ∧
  now w = 1000 ∧
  streamIntervalRef w = None ∧ intervals w = [] ∧
  attempts w = [] ∧ emitted w = [].
Proof.
  split; [vm_compute; reflexivity |]. split; [vm_compute; reflexivity |].
  split; [eexists; split; vm_compute; reflexivity |].
  repeat split; vm_compute; reflexivity.
Qed.

(** The upper bound alone does hold.  In every run any two frame-capture
    attempts are at least 100 ms apart, every interval in the timer table
    has a delay of 100 ms, and there is never more than one. *)
Theorem capture_attempts_100ms_apart host evs :
  let w := run evs (initial host) in
  (∀ i j a b, i < j → attempts w !! i = Some a → attempts w !! j = Some b →
              b + 100 ≤ a) ∧
  Forall (λ t, ∀ d, kind t = Interval d → d = 100) (timers w) ∧
  length (intervals w) ≤ 1.
Proof.
  pose proof (Clock_run evs _ (Clock_initial host)) as C. cbv zeta.
  split; [| split].
  - intros i j a b. apply spaced_lookup, C.
  - eapply Forall_impl; [exact (c_interval _ C) |]. simpl.
    intros t Ht d K. unfold is_interval in Ht. rewrite K in Ht.
    destruct (Ht eq_refl) as [E _]. congruence.
  - apply one_interval, C.
Qed.

Lemma capture_attempts_100ms_apart_witness :
  let w := run (streaming_trace ++ switch_trace) (initial "localhost") in
  attempts w = [700; 600] ∧ 600 + 100 ≤ 700.
Proof.
  split; [vm_compute; reflexivity |].
  refine (proj1 (capture_attempts_100ms_apart "localhost"
                   (streaming_trace ++ switch_trace)) 0 1 700 600 _ _ _).
  - lia.
  - vm_compute; reflexivity.
  - vm_compute; reflexivity.
Defined.

(** A photo that is taken and submitted produces one request. *)
Example photo_request :
  requests (run photo_trace (initial "localhost")) =
  [{| req_url := "http://localhost:5000/correct/deuteranopia?strength=1.0";
      req_method := "POST";
      req_body := [("image", {| file_bits := "bits";
                                file_name := "camera-capture.jpg";
                                file_type := "image/jpeg" |})] |}].
Proof. reflexivity. Qed.

(** C3.  Every request [handleProcess] has sent goes to
    [/correct/<selector>] with one of the three selectors, carries the
    query [strength=1.0], whose value is a number in [0,1], and has a
    body of exactly one entry, the image. *)
Theorem still_requests_well_formed host evs :
  Forall (request_ok host) (requests (run evs (initial host))).
Proof. exact (inv_requests _ _ (Inv_run host evs _ (Inv_initial host))). Qed.

(** C10.  [stopVideoStreaming] called at any point of a run, whatever the
    calling handler has already written to the hooks: the two cells are
    reset, the ref is null, no interval is left in the timer table, and
    as long as [startVideoStreaming] is not called again nothing more is
    emitted. *)
Theorem stopVideoStreaming_halts host evs pending later :
  let w := with_hooks pending (run evs (initial host)) in
  let w' := stopVideoStreaming w in
  isVideoStreaming (hooks w') = false ∧
  processedVideoFrame (hooks w') = null ∧
  streamIntervalRef w' = None ∧
  intervals w' = [] ∧
  (startCalls (run later (commit w')) = startCalls w' →
   emitted (run later (commit w')) = emitted w).
Proof.
  cbv zeta. set (w := with_hooks pending (run evs (initial host))).
  assert (C : Clock w).
  { apply (Clock_same (run evs (initial host))); auto.
    apply Clock_run, Clock_initial. }
  clearbody w.
  pose proof (Clock_stopVideoStreaming w C) as C'.
  assert (Href : streamIntervalRef (stopVideoStreaming w) = None).
  { unfold stopVideoStreaming. simpl.
    destruct (streamIntervalRef w) as [[|n]|] eqn:E; simpl; auto.
    pose proof (c_ref _ C 0 E). lia. }
  assert (N : no_intervals (stopVideoStreaming w)).
  { apply no_intervals_without_ref; [exact C' | rewrite Href; exact I]. }
  split; [| split; [| split; [exact Href | split]]].
  - unfold stopVideoStreaming. simpl.
    destruct (streamIntervalRef w) as [[|n]|]; reflexivity.
  - unfold stopVideoStreaming. simpl.
    destruct (streamIntervalRef w) as [[|n]|]; reflexivity.
  - unfold intervals. unfold no_intervals in N. rewrite Forall_forall in N.
    destruct (filter _ _) as [| t l] eqn:F; [reflexivity | exfalso].
    assert (Ht : t ∈ filter (λ t, is_interval t = true)
                   (timers (stopVideoStreaming w))) by (rewrite F; set_solver).
    apply list_elem_of_filter in Ht as [Hi Ht]. specialize (N t Ht). congruence.
  - intros E. destruct (commit_keeps (stopVideoStreaming w)) as (_ & _ & Ee & Es).
    rewrite <- Es in E.
    rewrite (run_quiet later _ (Clock_commit _ C') (no_intervals_commit _ N) E).
    rewrite Ee. apply stop_keeps.
Qed.

Lemma stopVideoStreaming_halts_witness :
  let streaming := run streaming_trace (initial "localhost") in
  let w := with_hooks (hooks streaming) streaming in
  let w' := stopVideoStreaming w in
  let later := repeat (Elapse sampleDom) 300 in
  startCalls (run later (commit w')) = startCalls w' ∧
  emitted (run later (commit w')) = emitted w.
Proof.
  assert (H : let streaming := run streaming_trace (initial "localhost") in
              let w := with_hooks (hooks streaming) streaming in
              let w' := stopVideoStreaming w in
              startCalls (run (repeat (Elapse sampleDom) 300) (commit w'))
              = startCalls w') by (vm_compute; reflexivity).
  split; [exact H |].
  exact (proj2 (proj2 (proj2 (proj2
           (stopVideoStreaming_halts "localhost" streaming_trace
              (hooks (run streaming_trace (initial "localhost")))
              (repeat (Elapse sampleDom) 300))))) H).
Defined.

(** ** Errors *)

(** C5, as the specification states it: an error event of shape
    [{error: <message>}] arrives while streaming.  The handler reads
    [data.message], which this object lacks, so no message is recorded
    and none is visible. *)
Lemma error_event_counterexample :
  let w := run streaming_trace (initial "localhost") in
  let w' := step (SocketError {[ "error" := "Invalid frame data" ]}) w in
  isVideoStreaming (hooks w) = true ∧
  errorMessage (hooks w') = undefined ∧
  visibleError (hooks w') ≠ Some "Invalid frame data".
Proof. vm_compute. repeat split; discriminate. Qed.

(** C5, amended: an error event whose object has a [message] field.  The
    text is recorded, and visible when it is not empty; the streaming
    flag, the timer table with its interval, the interval ref, the socket
    and the log of emitted frames are untouched, and a tick emits after
    the event what it would have emitted without it. *)
Theorem error_event_recorded host evs (data : JsObject) m :
  let w := run evs (initial host) in
  let w' := step (SocketError data) w in
  is_Some (socketRef w) → data !! "message" = Some m →
  errorMessage (hooks w') = str m ∧
  (m ≠ "" → visibleError (hooks w') = Some m) ∧
  isVideoStreaming (hooks w') = isVideoStreaming (hooks w) ∧
  timers w' = timers w ∧
  streamIntervalRef w' = streamIntervalRef w ∧
  socketRef w' = socketRef w ∧
  emitted w' = emitted w ∧
  (∀ closure env,
     emitted (runCallback env (FrameCapture closure) w')
     = emitted (runCallback env (FrameCapture closure) w)).
Proof.
  cbv zeta. intros [s Es] Hm.
  pose proof (Settled_run evs _ (eq_refl : Settled (initial host))) as HS.
  set (w := run evs (initial host)) in *. clearbody w.
  change (step (SocketError data) w) with (commit (handle (SocketError data) w)).
  unfold handle. rewrite Es. unfold onError, field. rewrite Hm.
  rewrite commit_same_deps by (simpl; unfold Settled in HS; rewrite HS; reflexivity).
  simpl. repeat split; try exact Es.
  - intros Hne. unfold visibleError. simpl.
    destruct (String.eqb_spec m ""); [contradiction | reflexivity].
  - intros closure env. apply captureFrame_emitted; reflexivity.
Qed.

Lemma error_event_recorded_witness :
  let w := run streaming_trace (initial "localhost") in
  let w' := step (SocketError {[ "message" := "Invalid frame data" ]}) w in
  is_Some (socketRef w) ∧
  errorMessage (hooks w') = str "Invalid frame data" ∧
  timers w' = timers w.
Proof.
  assert (H : is_Some (socketRef (run streaming_trace (initial "localhost"))))
    by (vm_compute; eauto).
  pose proof (error_event_recorded "localhost" streaming_trace
                {[ "message" := "Invalid frame data" ]} "Invalid frame data"
                H eq_refl) as (H1 & _ & _ & H2 & _).
  exact (conj H (conj H1 H2)).
Defined.

(** C4, as the specification states it: the request fails and the response
    carries its text in a field named [message].  The client reads
    [errorData.error], finds nothing, and shows its fixed text instead. *)
Lemma still_error_counterexample :
  let w := run photo_trace (initial "localhost") in
  let response := Responded false
                    (JsonBody {[ "message" := "Unsupported deficiency type" ]}) "" in
  let w' := step (FetchSettled response) w in
  inflight w = 1 ∧
  visibleError (hooks w') = Some "Failed to process image" ∧
  visibleError (hooks w') ≠ Some "Unsupported deficiency type".
Proof. vm_compute. repeat split; discriminate. Qed.

(** C4, amended: a response that is not ok and carries a JSON object.
    The client shows the text of its [error] field when that is a
    non-empty string, and "Failed to process image" when the field is
    missing or empty. *)
Theorem still_error_surfaced w (errorData : JsObject) url :
  let w' := step (FetchSettled (Responded false (JsonBody errorData) url)) w in
  0 < inflight w →
  (∀ m, errorData !! "error" = Some m → m ≠ "" →
        visibleError (hooks w') = Some m) ∧
  (errorData !! "error" = None ∨ errorData !! "error" = Some "" →
   visibleError (hooks w') = Some "Failed to process image").
Proof.
  cbv zeta. intros Hin.
  change (step (FetchSettled (Responded false (JsonBody errorData) url)) w)
    with (commit (handle (FetchSettled (Responded false (JsonBody errorData) url)) w)).
  destruct (commit_keeps
    (handle (FetchSettled (Responded false (JsonBody errorData) url)) w))
    as (-> & _).
  unfold handle. destruct (inflight w) as [| n]; [lia |].
  unfold settleFetch, visibleError, js_or, field. simpl. split.
  - intros m -> Hne. simpl.
    destruct (String.eqb_spec m ""); [contradiction |]. simpl.
    destruct (String.eqb_spec m ""); [contradiction | reflexivity].
  - intros [-> | ->]; reflexivity.
Qed.

Lemma still_error_surfaced_witness :
  let w := run photo_trace (initial "localhost") in
  let response := Responded false
                    (JsonBody {[ "error" := "Unsupported deficiency type" ]}) "" in
  0 < inflight w ∧
  visibleError (hooks (step (FetchSettled response) w))
  = Some "Unsupported deficiency type".
Proof.
  assert (H : 0 < inflight (run photo_trace (initial "localhost")))
    by (vm_compute; lia).
  split; [exact H |].
  refine (proj1 (still_error_surfaced (run photo_trace (initial "localhost"))
                   {[ "error" := "Unsupported deficiency type" ]} "" H)
            "Unsupported deficiency type" _ _).
  - vm_compute; reflexivity.
  - discriminate.
Defined.

(** ** The colour engine *)

Module EngineFacts.

Import Engine.
Local Open Scope Q_scope.

Lemma clamp_id (top x y : Q) : 0 <= x <= top → y == x → clamp top y == x.
Proof.
  intros [Hlo Hhi] Hy. unfold clamp.
  destruct (Q.max_spec 0 (Qmin top y)) as [[_ E1] | [H1 E1]];
    destruct (Q.min_spec top y) as [[H2 E2] | [H2 E2]];
    rewrite E1; try rewrite E2; try rewrite E2 in H1; lra.
Qed.

Lemma same_distance (a b : ConeColor) : same a b → distance a b == 0.
Proof.
  intros (H0 & H1 & H2). unfold distance.
  assert (Z0 : Qabs (ch0 a - ch0 b) == 0)
    by (assert (E : ch0 a - ch0 b == 0) by lra; rewrite E; reflexivity).
  assert (Z1 : Qabs (ch1 a - ch1 b) == 0)
    by (assert (E : ch1 a - ch1 b == 0) by lra; rewrite E; reflexivity).
  assert (Z2 : Qabs (ch2 a - ch2 b) == 0)
    by (assert (E : ch2 a - ch2 b == 0) by lra; rewrite E; reflexivity).
  rewrite Z0, Z1, Z2. reflexivity.
Qed.

Lemma simulate_twice (c : ConeColor) (d : DeficiencyType) :
  same (simulate (simulate c d) d) (simulate c d).
Proof.
  destruct d; unfold same, simulate, apply, projection, dot, vec; simpl;
    repeat split; ring.
Qed.

(** C7.  Projecting a projected colour changes no channel, so the two
    colours are within any tolerance of each other. *)
Theorem simulate_idempotent (c : ConeColor) (d : DeficiencyType) (eps : Q) :
  0 <= eps →
  same (simulate (simulate c d) d) (simulate c d) ∧
  distance (simulate (simulate c d) d) (simulate c d) <= eps.
Proof.
  intros Heps. split; [apply simulate_twice |].
  rewrite (same_distance _ _ (simulate_twice c d)). exact Heps.
Qed.

Lemma simulate_idempotent_witness :
  let c := vec (1 # 2) (1 # 4) (3 # 4) in
  0 <= 1 # 1000 ∧
  distance (simulate (simulate c deutan) deutan) (simulate c deutan) <= 1 # 1000.
Proof.
  assert (H : 0 <= 1 # 1000) by (unfold Qle; simpl; lia).
  split; [exact H |].
  exact (proj2 (simulate_idempotent (vec (1 # 2) (1 # 4) (3 # 4)) deutan
                  (1 # 1000) H)).
Defined.

(** C8.  At strength 0 the corrector returns the original colour,
    whatever matrix spreads the error, for every colour of the valid
    range. *)
Theorem correct_zero_strength (top : Q)
  (redistribution : DeficiencyType → Matrix) (c : ConeColor)
  (d : DeficiencyType) :
  valid top c →
  same (correct top redistribution c (simulate c d) d 0) c.
Proof.
  intros (V0 & V1 & V2).
  unfold same, correct, clamp_color, add, scale, vec; simpl.
  repeat split; apply clamp_id; try assumption; ring.
Qed.

Lemma correct_zero_strength_witness :
  let c := vec (1 # 2) (1 # 4) (3 # 4) in
  let spread := λ _, {| row0 := vec 0 0 0; row1 := vec (7 # 10) 1 0;
                        row2 := vec (7 # 10) 0 1 |} in
  valid 1 c ∧ same (correct 1 spread c (simulate c protan) protan 0) c.
Proof.
  assert (H : valid 1 (vec (1 # 2) (1 # 4) (3 # 4)))
    by (unfold valid, Qle; simpl; lia).
  split; [exact H |].
  exact (correct_zero_strength 1 _ (vec (1 # 2) (1 # 4) (3 # 4)) protan H).
Defined.

End EngineFacts.

(** * More properties of the client *)

(** ** The socket, the interval ref, the fetch and the photo *)

Lemma Sound_initial host : Sound (initial host).
Proof. constructor; simpl; auto. discriminate. Qed.

Lemma socket_matches_deps st st' sref :
  deps st' = deps st → socket_matches st sref → socket_matches st' sref.
Proof.
  unfold socket_matches, deps. intros E. destruct sref as [s|].
  - intros [H1 H2]. split; congruence.
  - congruence.
Qed.

Lemma Sound_commit w : Sound w → Sound (commit w).
Proof.
  intros [H1 H2 H3 H4]. unfold commit. case_bool_decide as E.
  - constructor; simpl; try assumption.
    eapply socket_matches_deps; [symmetry; exact E | exact H1].
  - unfold effectBody, effectCleanup. simpl.
    destruct (socketRef w) eqn:Sk; simpl;
      destruct (streamIntervalRef w) as [[|n]|] eqn:R; simpl;
      rewrite ?Sk; destruct (isVideoMode (hooks w)) eqn:M; simpl;
      constructor; simpl; rewrite ?M, ?R, ?Sk; simpl; auto; try discriminate;
      try (intros id; apply H2).
Qed.

Lemma Sound_captureFrame closure env w :
  Sound w → Sound (captureFrame closure env w).
Proof.
  intros [H1 H2 H3 H4]. pose proof (captureFrame_only_emits closure env w) as E.
  constructor; rewrite <- E in H1, H2, H3, H4; assumption.
Qed.

Lemma Sound_startVideoStreaming closure w :
  Sound w → Sound (startVideoStreaming closure w).
Proof.
  intros [H1 H2 H3 H4]. unfold startVideoStreaming. simpl.
  destruct (streamIntervalRef w) as [[|n]|]; simpl;
    constructor; simpl; auto.
Qed.

Lemma Sound_stopVideoStreaming w :
  Clock w → Sound w → Sound (stopVideoStreaming w).
Proof.
  intros C [H1 H2 H3 H4]. unfold stopVideoStreaming. simpl.
  destruct (streamIntervalRef w) as [[|n]|] eqn:R; simpl;
    constructor; simpl; rewrite ?R; auto; try discriminate.
  intros id E. pose proof (c_ref _ C 0 R). lia.
Qed.

Ltac sound_base :=
  match goal with
  | H : Sound ?w |- Sound _ =>
      let H1 := fresh in let H2 := fresh in let H3 := fresh in let H4 := fresh in
      destruct H as [H1 H2 H3 H4]; constructor; simpl in *;
      rewrite ?H3; eauto; try discriminate; try (repeat split; eauto; fail)
  end.

Ltac sound_step :=
  first
    [ assumption
    | apply Sound_startVideoStreaming
    | apply Sound_stopVideoStreaming; [solve [clock] |]
    | match goal with
      | |- Sound (if ?b then _ else _) => destruct b eqn:?
      | |- Sound (match ?x with _ => _ end) => destruct x eqn:?
      | |- context [match ?x with _ => _ end] => destruct x eqn:?
      end ].

Lemma Sound_handle e w : Settled w → Clock w → Sound w → Sound (handle e w).
Proof.
  intros HS C H. unfold Settled in HS.
  destruct e; unfold handle, toggleVideoMode, resetCapture,
    captureImage, handleProcess, settleFetch, onConnect, onConnectError,
    onProcessedFrame, onError, onDisconnect, onPlaying, onSelectChange,
    setTimeout; rewrite ?HS.
  all: repeat sound_step.
  all: try solve [sound_base].
  all: destruct H as [H1 H2 H3 H4]; constructor; simpl in *; eauto;
    try discriminate.
  all: try match goal with
       | E : socketRef ?x = Some _, H : socket_matches _ (socketRef ?x) |- _ =>
           rewrite E in H; exact H
       end.
  all: destruct (isLoading (hooks w)) eqn:L; simpl in *;
    rewrite ?andb_false_r in *; try discriminate; try lia.
Qed.

Lemma Sound_fire env id w : Sound w → Sound (fire env id w).
Proof.
  intros H. unfold fire.
  destruct (List.find _ _) as [t|]; [| assumption].
  destruct (_ <=? _); [| assumption].
  apply Sound_commit.
  assert (H' : Sound match kind t with
                     | Interval delay => reschedule id (now w + delay) w
                     | Timeout => clearInterval id w
                     end).
  { destruct H. destruct (kind t); constructor; assumption. }
  destruct (callback t); simpl.
  - apply Sound_captureFrame. destruct H'. constructor; assumption.
  - apply Sound_startVideoStreaming, H'.
Qed.

(** The three invariants travel together. *)
Lemma reach_fire env id w :
  Settled w ∧ Clock w ∧ Sound w →
  Settled (fire env id w) ∧ Clock (fire env id w) ∧ Sound (fire env id w).
Proof.
  intros (HS & C & H).
  auto using Settled_fire, Clock_fire, Sound_fire.
Qed.

Lemma reach_fires env ids w :
  Settled w ∧ Clock w ∧ Sound w →
  let w' := fold_left (λ w id, fire env id w) ids w in
  Settled w' ∧ Clock w' ∧ Sound w'.
Proof.
  revert w. induction ids as [| id ids IH]; intros w H; simpl; [exact H |].
  apply IH, reach_fire, H.
Qed.

Lemma reach_step e w :
  Settled w ∧ Clock w ∧ Sound w →
  Settled (step e w) ∧ Clock (step e w) ∧ Sound (step e w).
Proof.
  intros (HS & C & H).
  split; [apply Settled_step, HS | split; [apply Clock_step, C |]].
  destruct e;
    try exact (Sound_commit _ (Sound_handle _ w HS C H)).
  unfold step, elapse.
  apply (reach_fires env _ (with_now (S (now w)) w)).
  split; [exact HS | split; [apply Clock_advance, C |]].
  destruct H. constructor; assumption.
Qed.

Lemma reach_run host evs :
  let w := run evs (initial host) in Settled w ∧ Clock w ∧ Sound w.
Proof.
  cbv zeta.
  assert (G : ∀ w, Settled w ∧ Clock w ∧ Sound w →
                   Settled (run evs w) ∧ Clock (run evs w) ∧ Sound (run evs w)).
  { induction evs as [| e evs IH]; intros w H; simpl; [exact H |].
    apply IH, reach_step, H. }
  apply G. split; [reflexivity |].
  split; [apply Clock_initial | apply Sound_initial].
Qed.

Lemma no_ref_no_interval w :
  Clock w → streamIntervalRef w = None → intervals w = [].
Proof.
  intros C R. unfold intervals.
  pose proof (no_intervals_without_ref w C) as N. rewrite R in N.
  specialize (N I). rewrite Forall_forall in N.
  destruct (filter _ _) as [| t l] eqn:F; [reflexivity | exfalso].
  assert (Ht : t ∈ filter (λ t, is_interval t = true) (timers w))
    by (rewrite F; set_solver).
  apply list_elem_of_filter in Ht as [Hi Ht]. specialize (N t Ht). congruence.
Qed.

Lemma socket_closure_current host evs s :
  socketRef (run evs (initial host)) = Some s →
  isVideoMode (hooks (run evs (initial host))) = true ∧
  isVideoStreaming (sock_closure s)
  = isVideoStreaming (hooks (run evs (initial host))).
Proof.
  destruct (reach_run host evs) as (HS & _ & [H _ _ _]).
  unfold Settled in HS. rewrite HS in H. unfold socket_matches in H.
  intros E. rewrite E in H. destruct H as [M D]. unfold deps in D.
  split; congruence.
Qed.

Lemma idle_has_no_interval host evs :
  isVideoStreaming (hooks (run evs (initial host))) = false →
  streamIntervalRef (run evs (initial host)) = None ∧
  intervals (run evs (initial host)) = [].
Proof.
  destruct (reach_run host evs) as (_ & C & [_ H _ _]). intros F.
  assert (R : streamIntervalRef (run evs (initial host)) = None).
  { destruct (streamIntervalRef _) as [id|] eqn:E; [| reflexivity].
    rewrite (H id eq_refl) in F. discriminate. }
  split; [exact R | apply no_ref_no_interval; assumption].
Qed.

(** The effect keeps a socket exactly while the page is in video mode,
    and the handlers of that socket were created by a render with the
    current [isVideoStreaming]: they never act on a stale value. *)
Theorem socket_exactly_in_video_mode host evs :
  let w := run evs (initial host) in
  (is_Some (socketRef w) ↔ isVideoMode (hooks w) = true) ∧
  (∀ s, socketRef w = Some s →
        isVideoStreaming (sock_closure s) = isVideoStreaming (hooks w)).
Proof.
  destruct (reach_run host evs) as (HS & _ & [H _ _ _]). cbv zeta.
  unfold Settled in HS. rewrite HS in H. unfold socket_matches in H.
  destruct (socketRef (run evs (initial host))) as [s|].
  - destruct H as [M D]. split; [split; eauto |].
    intros s' E. simplify_eq. unfold deps in D. congruence.
  - split; [| discriminate]. split; [intros [? ?]; discriminate | congruence].
Qed.

Lemma socket_exactly_in_video_mode_witness :
  let w := run streaming_trace (initial "localhost") in
  ∃ s, socketRef w = Some s ∧
       isVideoStreaming (sock_closure s) = isVideoStreaming (hooks w).
Proof.
  destruct (socketRef (run streaming_trace (initial "localhost"))) as [s|] eqn:E;
    [| exfalso; vm_compute in E; discriminate].
  exists s. split; [exact E |].
  exact (proj2 (socket_exactly_in_video_mode "localhost" streaming_trace) s E).
Defined.

(** While [isVideoStreaming] is false no frame-capture interval exists:
    the ref is null and the timer table holds no interval. *)
Theorem no_interval_unless_streaming host evs :
  let w := run evs (initial host) in
  isVideoStreaming (hooks w) = false →
  streamIntervalRef w = None ∧ intervals w = [].
Proof. exact (idle_has_no_interval host evs). Qed.

Lemma no_interval_unless_streaming_witness :
  let w := run (streaming_trace ++ [StopStreamingClick]) (initial "localhost") in
  isVideoStreaming (hooks w) = false ∧ intervals w = [].
Proof.
  assert (H : isVideoStreaming
                (hooks (run (streaming_trace ++ [StopStreamingClick])
                          (initial "localhost"))) = false)
    by (vm_compute; reflexivity).
  split; [exact H |].
  exact (proj2 (no_interval_unless_streaming "localhost"
                  (streaming_trace ++ [StopStreamingClick]) H)).
Defined.

Lemma run_snoc evs e w : run (evs ++ [e]) w = step e (run evs w).
Proof. unfold run. rewrite fold_left_app. reflexivity. Qed.

Lemma stop_hooks w :
  isVideoStreaming (hooks (stopVideoStreaming w)) = false ∧
  errorMessage (hooks (stopVideoStreaming w)) = errorMessage (hooks w).
Proof.
  unfold stopVideoStreaming. simpl.
  destruct (streamIntervalRef w) as [[|n]|]; simpl; auto.
Qed.

(** A [connect_error] event shows its message and ends streaming: the
    flag is false and no interval is left. *)
Theorem connect_error_stops_streaming host evs message :
  let w := run evs (initial host) in
  let w' := step (SocketConnectError message) w in
  is_Some (socketRef w) →
  errorMessage (hooks w') =
    str ("Connection error: " ++ message
         ++ ". Please check if the server is running.") ∧
  isVideoStreaming (hooks w') = false ∧
  streamIntervalRef w' = None ∧ intervals w' = [].
Proof.
  cbv zeta. intros [s Es].
  pose proof (socket_closure_current host evs s Es) as [_ Hc].
  pose proof (idle_has_no_interval host (evs ++ [SocketConnectError message]))
    as Hn. rewrite run_snoc in Hn.
  set (w := run evs (initial host)) in *. clearbody w.
  assert (Hh : errorMessage (hooks (step (SocketConnectError message) w)) =
               str ("Connection error: " ++ message
                    ++ ". Please check if the server is running.") ∧
               isVideoStreaming (hooks (step (SocketConnectError message) w)) = false).
  { change (step (SocketConnectError message) w)
      with (commit (handle (SocketConnectError message) w)).
    destruct (commit_keeps (handle (SocketConnectError message) w)) as (-> & _).
    unfold handle. rewrite Es. unfold onConnectError.
    destruct (isVideoStreaming (sock_closure s)) eqn:V.
    - match goal with
      | |- context [stopVideoStreaming ?x] =>
          destruct (stop_hooks x) as [-> ->]
      end. auto.
    - simpl. auto. }
  destruct Hh as [H1 H2]. destruct (Hn H2). auto.
Qed.

Lemma connect_error_stops_streaming_witness :
  let w := run streaming_trace (initial "localhost") in
  let w' := step (SocketConnectError "timeout") w in
  is_Some (socketRef w) ∧ isVideoStreaming (hooks w) = true ∧
  isVideoStreaming (hooks w') = false ∧ intervals w' = [].
Proof.
  assert (H : is_Some (socketRef (run streaming_trace (initial "localhost"))))
    by (vm_compute; eauto).
  pose proof (connect_error_stops_streaming "localhost" streaming_trace
                "timeout" H) as (_ & H2 & _ & H4).
  split; [exact H |]. split; [vm_compute; reflexivity |]. exact (conj H2 H4).
Defined.

Lemma disconnect_hooks reason s w :
  socketRef w = Some s →
  hooks (step (SocketDisconnect reason) w)
  = hooks (onDisconnect (sock_closure s) reason
             (with_socketRef (Some (with_connected false s)) w)).
Proof.
  intros Es.
  change (step (SocketDisconnect reason) w)
    with (commit (handle (SocketDisconnect reason) w)).
  destruct (commit_keeps (handle (SocketDisconnect reason) w)) as (-> & _).
  unfold handle. rewrite Es. reflexivity.
Qed.

(** A [disconnect] event with the reason "io server disconnect" or
    "transport close" shows the fixed message and ends streaming. *)
Theorem server_disconnect_stops_streaming host evs reason :
  let w := run evs (initial host) in
  let w' := step (SocketDisconnect reason) w in
  is_Some (socketRef w) →
  reason = "io server disconnect" ∨ reason = "transport close" →
  errorMessage (hooks w') = str "Disconnected from server. Please try again." ∧
  isVideoStreaming (hooks w') = false ∧
  streamIntervalRef w' = None ∧ intervals w' = [].
Proof.
  cbv zeta. intros [s Es] Hr.
  pose proof (socket_closure_current host evs s Es) as [_ Hc].
  pose proof (idle_has_no_interval host (evs ++ [SocketDisconnect reason])) as Hn.
  rewrite run_snoc in Hn.
  set (w := run evs (initial host)) in *. clearbody w.
  assert (Hh : errorMessage (hooks (step (SocketDisconnect reason) w)) =
               str "Disconnected from server. Please try again." ∧
               isVideoStreaming (hooks (step (SocketDisconnect reason) w)) = false).
  { rewrite (disconnect_hooks reason s w Es). unfold onDisconnect.
    assert (G : String.eqb reason "io server disconnect"
                || String.eqb reason "transport close" = true)
      by (destruct Hr as [-> | ->]; reflexivity).
    rewrite G. destruct (isVideoStreaming (sock_closure s)) eqn:V.
    - match goal with
      | |- context [stopVideoStreaming ?x] =>
          destruct (stop_hooks x) as [-> ->]
      end. auto.
    - simpl. auto. }
  destruct Hh as [H1 H2]. destruct (Hn H2). auto.
Qed.

Lemma server_disconnect_stops_streaming_witness :
  let w := run streaming_trace (initial "localhost") in
  let w' := step (SocketDisconnect "transport close") w in
  is_Some (socketRef w) ∧ isVideoStreaming (hooks w) = true ∧
  isVideoStreaming (hooks w') = false ∧ intervals w' = [].
Proof.
  assert (H : is_Some (socketRef (run streaming_trace (initial "localhost"))))
    by (vm_compute; eauto).
  pose proof (server_disconnect_stops_streaming "localhost" streaming_trace
                "transport close" H (or_intror eq_refl)) as (_ & H2 & _ & H4).
  split; [exact H |]. split; [vm_compute; reflexivity |]. exact (conj H2 H4).
Defined.

(** A [disconnect] event with any other reason changes no hook and
    leaves the timer table and the interval ref as they are; the socket
    stays in place, marked as not connected. *)
Theorem other_disconnect_keeps_session host evs reason s :
  let w := run evs (initial host) in
  let w' := step (SocketDisconnect reason) w in
  socketRef w = Some s →
  reason ≠ "io server disconnect" → reason ≠ "transport close" →
  hooks w' = hooks w ∧ timers w' = timers w ∧
  streamIntervalRef w' = streamIntervalRef w ∧
  socketRef w' = Some (with_connected false s).
Proof.
  cbv zeta. intros Es N1 N2.
  destruct (reach_run host evs) as (HS & _). unfold Settled in HS.
  set (w := run evs (initial host)) in *. clearbody w.
  change (step (SocketDisconnect reason) w)
    with (commit (handle (SocketDisconnect reason) w)).
  unfold handle. rewrite Es. unfold onDisconnect.
  destruct (String.eqb_spec reason "io server disconnect"); [contradiction |].
  destruct (String.eqb_spec reason "transport close"); [contradiction |].
  simpl. rewrite commit_same_deps by (simpl; rewrite HS; reflexivity).
  simpl. auto.
Qed.

Lemma other_disconnect_keeps_session_witness :
  let w := run streaming_trace (initial "localhost") in
  let w' := step (SocketDisconnect "ping timeout") w in
  isVideoStreaming (hooks w') = true ∧ timers w' = timers w.
Proof.
  destruct (socketRef (run streaming_trace (initial "localhost"))) as [s|] eqn:E;
    [| exfalso; vm_compute in E; discriminate].
  pose proof (other_disconnect_keeps_session "localhost" streaming_trace
                "ping timeout" s E ltac:(discriminate) ltac:(discriminate))
    as (H1 & H2 & _).
  split; [| exact H2]. cbv zeta. rewrite H1. vm_compute. reflexivity.
Defined.

Lemma commit_socket w s' :
  socketRef (commit w) = Some s' → socketRef w = Some s' ∨ connected s' = false.
Proof.
  unfold commit. case_bool_decide; simpl; [auto |].
  unfold effectBody, effectCleanup. simpl.
  destruct (socketRef w) eqn:Sk; simpl;
    destruct (streamIntervalRef w) as [[|n]|]; simpl; rewrite ?Sk;
    destruct (isVideoMode (hooks w)); simpl; intros E; simplify_eq; auto.
Qed.

Lemma captureFrame_unconnected closure env w :
  (∀ s, socketRef w = Some s → connected s = false) →
  captureFrame closure env w = w.
Proof.
  intros H. unfold captureFrame.
  destruct (videoElement env); [| reflexivity].
  destruct (socketRef w) as [s|]; [| reflexivity].
  rewrite (H s eq_refl). reflexivity.
Qed.

(** After a [disconnect] event, whatever its reason and whatever the
    state, a tick of the interval emits nothing: the socket in the ref,
    if there is one, is not connected. *)
Theorem no_frame_after_disconnect reason closure env w :
  let w' := step (SocketDisconnect reason) w in
  emitted (runCallback env (FrameCapture closure) w') = emitted w.
Proof.
  cbv zeta.
  assert (U : ∀ s, socketRef (step (SocketDisconnect reason) w) = Some s →
                   connected s = false).
  { intros s' E.
    change (step (SocketDisconnect reason) w)
      with (commit (handle (SocketDisconnect reason) w)) in E.
    apply commit_socket in E as [E | E]; [| exact E].
    unfold handle in E. destruct (socketRef w) as [s|] eqn:Es; [| congruence].
    unfold onDisconnect in E.
    destruct (_ || _) in E; [destruct (isVideoStreaming _) in E |];
      try (unfold stopVideoStreaming in E; simpl in E;
           destruct (streamIntervalRef w) as [[|n]|] in E);
      simpl in E; simplify_eq; reflexivity. }
  unfold runCallback. rewrite captureFrame_unconnected by exact U.
  change (emitted (step (SocketDisconnect reason) w) = emitted w).
  change (step (SocketDisconnect reason) w)
    with (commit (handle (SocketDisconnect reason) w)).
  destruct (commit_keeps (handle (SocketDisconnect reason) w)) as (_ & _ & -> & _).
  apply handle_quiet.
Qed.

(** Pressing "Start Streaming" sets the flag but leaves no interval
    behind: the commit that follows the click runs the clean-up of the
    effect, which clears the interval the click has set and replaces the
    socket by a new one that is not yet connected. *)
Theorem start_click_leaves_no_interval host evs :
  let w := run evs (initial host) in
  let w' := step StartStreamingClick w in
  isVideoMode (hooks w) = true → isVideoStreaming (hooks w) = false →
  isVideoStreaming (hooks w') = true ∧
  streamIntervalRef w' = None ∧ intervals w' = [] ∧
  socketRef w' = Some {| sock_id := nextSocket w; connected := false;
                         sock_closure := hooks w' |}.
Proof.
  cbv zeta. intros M V.
  destruct (reach_run host (evs ++ [StartStreamingClick])) as (_ & C' & _).
  rewrite run_snoc in C'.
  destruct (reach_run host evs) as (HS & C & _). unfold Settled in HS.
  set (w := run evs (initial host)) in *. clearbody w.
  assert (G : isVideoStreaming (hooks (step StartStreamingClick w)) = true ∧
              streamIntervalRef (step StartStreamingClick w) = None ∧
              socketRef (step StartStreamingClick w) =
              Some {| sock_id := nextSocket w; connected := false;
                      sock_closure := hooks (step StartStreamingClick w) |}).
  { change (step StartStreamingClick w)
      with (commit (handle StartStreamingClick w)).
    unfold handle. rewrite HS, M, V. simpl.
    unfold commit, startVideoStreaming. simpl.
    pose proof (c_next _ C) as Hn.
    destruct (nextTimer w) as [| k] eqn:K; [lia |].
    destruct (streamIntervalRef w) as [[|n]|]; simpl; rewrite ?K;
      (rewrite bool_decide_eq_false_2
         by (intros E; unfold deps in E; simpl in E; rewrite ?HS in E;
             congruence));
      unfold effectBody, effectCleanup; simpl; rewrite ?K; simpl;
      destruct (socketRef w) eqn:Sk; simpl; rewrite ?Sk, ?M; simpl;
      rewrite ?Sk, ?M; simpl; repeat split; rewrite ?M; reflexivity. }
  destruct G as (G1 & G2 & G3).
  repeat split; try assumption. apply no_ref_no_interval; assumption.
Qed.

Lemma start_click_leaves_no_interval_witness :
  let w := run [VideoModeClick; SocketConnect] (initial "localhost") in
  let w' := step StartStreamingClick w in
  isVideoMode (hooks w) = true ∧ isVideoStreaming (hooks w) = false ∧
  isVideoStreaming (hooks w') = true ∧ intervals w' = [].
Proof.
  pose proof (start_click_leaves_no_interval "localhost"
                [VideoModeClick; SocketConnect] eq_refl eq_refl)
    as (H1 & _ & H3 & _).
  split; [reflexivity |]. split; [reflexivity |]. exact (conj H1 H3).
Defined.

(** ** Frames *)

Lemma prefix_nonempty f : String.prefix jpegPrefix f = true → truthy (str f) = true.
Proof. destruct f; [discriminate | reflexivity]. Qed.

(** A tick does emit when everything is in place: with a connected
    socket, a video element that has enough data and reports sides that
    are not negative, a 2d context and a captured string with the JPEG
    prefix, exactly one message is appended, on the socket of the ref,
    carrying the captured string and the selector the callback closed
    over.  A video that reports 0 x 0 is captured as 640 x 480. *)
Theorem tick_emits_when_ready closure env w s v f :
  socketRef w = Some s → connected s = true →
  videoElement env = Some v → readyState v = HAVE_ENOUGH_DATA →
  (0 ≤ videoWidth v)%Z → (0 ≤ videoHeight v)%Z →
  context2d env = true →
  capture env = DataURL f → String.prefix jpegPrefix f = true →
  emitted (runCallback env (FrameCapture closure) w) =
  (emitted w ++ [{| em_socket := sock_id s; em_event := "video_frame";
                    em_data := videoFrame f (deficiency closure) |}])%list.
Proof.
  intros Es Ec Ev Er Hw Hh Hx Ef Hp.
  unfold runCallback, captureFrame. simpl. rewrite Ev, Es, Ec, Hx, Ef.
  rewrite bool_decide_eq_true_2 by exact Er. simpl.
  assert (W : (num_or (videoWidth v) 640 <=? 0)%Z = false)
    by (unfold num_or; destruct (Z.eqb_spec (videoWidth v) 0);
        [reflexivity | apply Z.leb_gt; lia]).
  assert (H : (num_or (videoHeight v) 480 <=? 0)%Z = false)
    by (unfold num_or; destruct (Z.eqb_spec (videoHeight v) 0);
        [reflexivity | apply Z.leb_gt; lia]).
  rewrite W, H. simpl.
  pose proof (prefix_nonempty f Hp) as T. simpl in T. rewrite T, Hp.
  reflexivity.
Qed.

Lemma tick_emits_when_ready_witness :
  let env := {| videoElement := Some {| readyState := 4; videoWidth := 0;
                                        videoHeight := 0 |};
                context2d := true;
                capture := DataURL "data:image/jpeg;base64,AAAA" |} in
  let w := run [VideoModeClick; SocketConnect] (initial "localhost") in
  emitted (runCallback env (FrameCapture (hooks w)) w) =
  [{| em_socket := 1; em_event := "video_frame";
      em_data := videoFrame "data:image/jpeg;base64,AAAA" "deuteranopia" |}].
Proof.
  exact (tick_emits_when_ready
           (hooks (run [VideoModeClick; SocketConnect] (initial "localhost")))
           {| videoElement := Some {| readyState := 4; videoWidth := 0;
                                      videoHeight := 0 |};
              context2d := true;
              capture := DataURL "data:image/jpeg;base64,AAAA" |}
           (run [VideoModeClick; SocketConnect] (initial "localhost"))
           {| sock_id := 1; connected := true;
              sock_closure := hooks (run [VideoModeClick] (initial "localhost")) |}
           {| readyState := 4; videoWidth := 0; videoHeight := 0 |}
           "data:image/jpeg;base64,AAAA"
           eq_refl eq_refl eq_refl eq_refl
           ltac:(simpl; lia) ltac:(simpl; lia) eq_refl eq_refl eq_refl).
Defined.

Lemma fire_photo_mode env id w :
  socketRef w = None → isVideoMode (hooks w) = false →
  emitted (fire env id w) = emitted w ∧
  socketRef (fire env id w) = None ∧ isVideoMode (hooks (fire env id w)) = false.
Proof.
  intros Es M. unfold fire.
  destruct (List.find _ _) as [t|]; [| auto].
  destruct (_ <=? _); [| auto].
  set (w1 := match kind t with
             | Interval delay => reschedule id (now w + delay) w
             | Timeout => clearInterval id w
             end).
  assert (K : socketRef w1 = None ∧ isVideoMode (hooks w1) = false ∧
              emitted w1 = emitted w) by (subst w1; destruct (kind t); auto).
  destruct K as (K1 & K2 & K3). clearbody w1.
  assert (R : ∀ x, socketRef x = None → isVideoMode (hooks x) = false →
                   emitted (commit x) = emitted x ∧ socketRef (commit x) = None ∧
                   isVideoMode (hooks (commit x)) = false).
  { intros x X1 X2. destruct (commit_keeps x) as (Hh & _ & He & _).
    rewrite Hh, He. repeat split; [| exact X2].
    unfold commit. case_bool_decide; simpl; [exact X1 |].
    unfold effectBody, effectCleanup. simpl. rewrite X1. simpl.
    destruct (streamIntervalRef x) as [[|n]|]; simpl;
      rewrite ?X1, X2; simpl; rewrite ?X1; reflexivity. }
  destruct (callback t) as [c | c]; unfold runCallback.
  - rewrite captureFrame_unconnected by (simpl; rewrite K1; discriminate).
    destruct (R (with_attempts (now w1 :: attempts w1) w1) K1 K2) as (-> & -> & ->).
    rewrite <- K3. auto.
  - destruct (start_counts c w1) as [_ Ee].
    assert (S1 : socketRef (startVideoStreaming c w1) = None ∧
                 isVideoMode (hooks (startVideoStreaming c w1)) = false).
    { unfold startVideoStreaming. simpl.
      destruct (streamIntervalRef w1) as [[|n]|]; simpl; auto. }
    destruct S1 as [S1 S2].
    destruct (R (startVideoStreaming c w1) S1 S2) as (-> & -> & ->).
    rewrite Ee, K3. auto.
Qed.

(** In photo mode nothing is emitted: whatever happens next, a click, a
    socket event or a millisecond with its timers, the log of emitted
    frames stays as it is. *)
Theorem no_frame_in_photo_mode host evs e :
  let w := run evs (initial host) in
  isVideoMode (hooks w) = false → emitted (step e w) = emitted w.
Proof.
  cbv zeta. intros M.
  assert (Es : socketRef (run evs (initial host)) = None).
  { destruct (socketRef _) as [s|] eqn:E; [| reflexivity].
    destruct (socket_closure_current host evs s E) as [M' _]. congruence. }
  set (w := run evs (initial host)) in *. clearbody w.
  destruct e.
  20: { unfold step, elapse.
        assert (G : ∀ ids x, socketRef x = None → isVideoMode (hooks x) = false →
                    emitted (fold_left (λ w id, fire env id w) ids x) = emitted x).
        { induction ids as [| id ids IH]; intros x X1 X2; simpl; [reflexivity |].
          destruct (fire_photo_mode env id x X1 X2) as (E1 & E2 & E3).
          rewrite IH by assumption. exact E1. }
        rewrite G by assumption. reflexivity. }
  all: match goal with
       | |- emitted (step ?e ?x) = _ =>
           change (step e x) with (commit (handle e x));
           destruct (commit_keeps (handle e x)) as (_ & _ & -> & _);
           apply handle_quiet
       end.
Qed.

Lemma no_frame_in_photo_mode_witness :
  let w := run [VideoModeClick; VideoPlaying; SwitchToPhotoClick]
               (initial "localhost") in
  isVideoMode (hooks w) = false ∧
  emitted (step (Elapse sampleDom) w) = emitted w.
Proof.
  split; [reflexivity |].
  exact (no_frame_in_photo_mode "localhost"
           [VideoModeClick; VideoPlaying; SwitchToPhotoClick]
           (Elapse sampleDom) eq_refl).
Defined.

(** ** Still images *)

(** [isLoading] is true exactly while a request is in flight, and there
    is never more than one: the disabled "Process Image" button keeps a
    second request from being sent before the first has settled. *)
Theorem one_request_in_flight host evs :
  let w := run evs (initial host) in
  inflight w = if isLoading (hooks w) then 1 else 0.
Proof. exact (so_fetch _ (proj2 (proj2 (reach_run host evs)))). Qed.

Lemma commit_keeps_requests w :
  requests (commit w) = requests w ∧ inflight (commit w) = inflight w.
Proof.
  unfold commit. case_bool_decide; simpl; [auto |].
  unfold effectBody, effectCleanup. simpl.
  destruct (socketRef w) eqn:Sk; simpl;
    destruct (streamIntervalRef w) as [[|n]|]; simpl; rewrite ?Sk;
    destruct (isVideoMode (hooks w)); simpl; auto.
Qed.

(** Whenever the "Process Image" button is shown and enabled, a photo is
    held, and the click sends one request that carries it: the file is
    named camera-capture.jpg and typed image/jpeg, the URL names the
    current selector, the error is cleared and [isLoading] is set. *)
Theorem process_click_sends_the_photo host evs :
  let w := run evs (initial host) in
  let w' := step ProcessClick w in
  isVideoMode (hooks w) = false → truthy (previewURL (hooks w)) = true →
  truthy (imageURL (hooks w)) = false → isLoading (hooks w) = false →
  ∃ f, capturedImage (hooks w) = Some f ∧ camera_file f ∧
       requests w' =
       (requests w ++
        [{| req_url := "http://" ++ host ++ ":5000/correct/"
                       ++ deficiency (hooks w) ++ "?strength=1.0";
            req_method := "POST"; req_body := [("image", f)] |}])%list ∧
       isLoading (hooks w') = true ∧ errorMessage (hooks w') = null ∧
       inflight w' = 1.
Proof.
  cbv zeta. intros M P U L.
  destruct (reach_run host evs) as (HS & _ & [_ _ F Ph]).
  pose proof (inv_host _ _ (Inv_run host evs _ (Inv_initial host))) as Hh.
  unfold Settled in HS.
  set (w := run evs (initial host)) in *. clearbody w.
  destruct (capturedImage (hooks w)) as [f|] eqn:Cf;
    [| rewrite Ph in P; discriminate].
  exists f. destruct Ph as [Hf _]. split; [reflexivity |]. split; [exact Hf |].
  change (step ProcessClick w) with (commit (handle ProcessClick w)).
  destruct (commit_keeps (handle ProcessClick w)) as (-> & _).
  assert (E : handle ProcessClick w = handleProcess (hooks w) w).
  { unfold handle. rewrite HS, M, P, U, L. reflexivity. }
  destruct (commit_keeps_requests (handle ProcessClick w)) as [-> ->]. rewrite E. unfold handleProcess. rewrite Cf. simpl.
  rewrite Hh, F, L. auto.
Qed.

Lemma process_click_sends_the_photo_witness :
  let w := run [OpenCameraClick; ShutterClick (Some ("bits", "blob:preview"))]
               (initial "localhost") in
  ∃ f, capturedImage (hooks w) = Some f ∧ camera_file f ∧
       inflight (step ProcessClick w) = 1.
Proof.
  destruct (process_click_sends_the_photo "localhost"
              [OpenCameraClick; ShutterClick (Some ("bits", "blob:preview"))]
              eq_refl eq_refl eq_refl eq_refl) as (f & H1 & H2 & _ & _ & _ & H6).
  exists f. auto.
Defined.

(** ** The rate of frames *)

Lemma Rate_initial host : Rate (initial host).
Proof. constructor; simpl; auto. Qed.

Lemma Rate_same w w' :
  timers w' = timers w → attempts w' = attempts w → emitted w' = emitted w →
  Rate w → Rate w'.
Proof. intros Ht Ha He []. constructor; rewrite ?Ht, ?Ha, ?He; assumption. Qed.

Lemma Rate_clearInterval id w : Rate w → Rate (clearInterval id w).
Proof.
  intros [R1 R2 R3]. constructor; simpl; try assumption.
  apply Forall_forall. intros t Ht. apply list_elem_of_filter in Ht as [_ Ht].
  rewrite Forall_forall in R3. auto.
Qed.

Lemma Rate_unref w :
  Rate w →
  Rate (match streamIntervalRef w with
        | Some (S _ as id) => with_streamIntervalRef None (clearInterval id w)
        | _ => w
        end).
Proof.
  intros R. destruct (streamIntervalRef w) as [[|n]|]; try assumption.
  apply (Rate_same (clearInterval (S n) w)); auto. apply Rate_clearInterval, R.
Qed.

Lemma Rate_setTimer k cb delay w :
  100 ≤ delay → Rate w → Rate (snd (setTimer k cb delay w)).
Proof.
  intros D [R1 R2 R3]. constructor; simpl; try assumption.
  apply Forall_app. split; [assumption |].
  apply Forall_singleton. simpl. intros _. lia.
Qed.

Lemma Rate_startVideoStreaming closure w :
  Rate w → Rate (startVideoStreaming closure w).
Proof.
  intros R. unfold startVideoStreaming.
  set (w1 := setIsVideoStreaming true (with_startCalls (S (startCalls w)) w)).
  assert (R1 : Rate w1) by (apply (Rate_same w); auto).
  set (w2 := match streamIntervalRef w1 with
             | Some (S _ as id) => clearInterval id w1
             | _ => w1
             end).
  assert (R2 : Rate w2).
  { subst w2. destruct (streamIntervalRef w1) as [[|n]|]; try assumption.
    apply Rate_clearInterval, R1. }
  unfold setInterval.
  apply (Rate_same (snd (setTimer (Interval 100) (FrameCapture closure) 100 w2)));
    auto.
  apply Rate_setTimer; [lia | exact R2].
Qed.

Lemma Rate_stopVideoStreaming w : Rate w → Rate (stopVideoStreaming w).
Proof.
  intros R. unfold stopVideoStreaming.
  apply (Rate_unref (setProcessedVideoFrame null (setIsVideoStreaming false w))).
  apply (Rate_same w); auto.
Qed.

Lemma Rate_effectCleanup w : Rate w → Rate (effectCleanup w).
Proof.
  intros R. unfold effectCleanup. apply Rate_unref.
  destruct (socketRef w); [apply (Rate_same w); auto | assumption].
Qed.

Lemma Rate_effectBody closure w : Rate w → Rate (effectBody closure w).
Proof.
  intros R. unfold effectBody.
  destruct (isVideoMode closure), (socketRef w); try assumption.
  apply (Rate_same w); auto.
Qed.

Lemma Rate_commit w : Rate w → Rate (commit w).
Proof.
  intros R. unfold commit. case_bool_decide.
  - apply (Rate_same w); auto.
  - apply Rate_effectBody, Rate_effectCleanup. apply (Rate_same w); auto.
Qed.

Ltac rate :=
  repeat first
    [ assumption
    | apply Rate_commit
    | apply Rate_stopVideoStreaming
    | apply Rate_startVideoStreaming
    | apply Rate_setTimer; [lia |]
    | match goal with
      | |- Rate (if ?b then _ else _) => destruct b
      | |- Rate (match ?x with _ => _ end) => destruct x
      | |- context [match ?x with _ => _ end] => destruct x
      | H : Rate ?w |- Rate _ =>
          apply (Rate_same w); [reflexivity .. | exact H]
      end ].

Lemma Rate_handle e w : Rate w → Rate (handle e w).
Proof.
  intros R. destruct e; unfold handle, toggleVideoMode, resetCapture,
    captureImage, handleProcess, settleFetch, onConnect, onConnectError,
    onProcessedFrame, onError, onDisconnect, onPlaying, onSelectChange,
    setTimeout.
  all: rate.
Qed.

Lemma captureFrame_emits_at_most_one closure env w :
  length (emitted (captureFrame closure env w)) ≤ S (length (emitted w)).
Proof.
  unfold captureFrame, emit.
  repeat (match goal with
          | |- context [match ?x with _ => _ end] => destruct x
          end; simpl); rewrite ?length_app; simpl; lia.
Qed.

Lemma Rate_fire env id w : Clock w → Rate w → Rate (fire env id w).
Proof.
  intros C R. unfold fire.
  destruct (List.find (λ t, timer_id t =? id) (timers w)) as [t|] eqn:F;
    [| assumption].
  apply find_some in F as [Hin _]. apply list_elem_of_In in Hin.
  destruct (due t <=? now w) eqn:Hdue; [| assumption].
  apply Nat.leb_le in Hdue. apply Rate_commit.
  pose proof (c_callback _ C) as HC. rewrite Forall_forall in HC.
  specialize (HC t Hin).
  pose proof (r_due _ R) as HD. rewrite Forall_forall in HD.
  assert (R1 : Rate match kind t with
                    | Interval delay => reschedule id (now w + delay) w
                    | Timeout => clearInterval id w
                    end).
  { destruct (kind t) eqn:K; [| apply Rate_clearInterval, R].
    assert (Hi : is_interval t = true) by (unfold is_interval; rewrite K; reflexivity).
    pose proof (HD t Hin Hi).
    destruct R as [R1 R2 R3]. constructor; simpl; try assumption.
    apply Forall_fmap. eapply Forall_impl; [exact R3 |]. simpl.
    intros t' Ht'. destruct (timer_id t' =? id); [simpl; intros _; lia | exact Ht']. }
  destruct (callback t) as [c | c]; simpl.
  - pose proof (HD t Hin HC) as H100.
    set (w1 := match kind t with
               | Interval delay => reschedule id (now w + delay) w
               | Timeout => clearInterval id w
               end) in *.
    assert (N : now w1 = now w) by (subst w1; destruct (kind t); reflexivity).
    clearbody w1. destruct R1 as [E1 E2 E3].
    pose proof (captureFrame_emits_at_most_one c env
                  (with_attempts (now w1 :: attempts w1) w1)) as L.
    pose proof (captureFrame_only_emits c env
                  (with_attempts (now w1 :: attempts w1) w1)) as K.
    pose proof (f_equal attempts K) as Ka. pose proof (f_equal timers K) as Kt.
    simpl in Ka, Kt, L.
    constructor; rewrite ?Ka, ?Kt.
    + simpl. lia.
    + constructor; [lia | exact E2].
    + exact E3.
  - apply Rate_startVideoStreaming, R1.
Qed.

Lemma Rate_run host evs :
  Rate (run evs (initial host)).
Proof.
  assert (G : ∀ w, Clock w → Rate w → Rate (run evs w)).
  { induction evs as [| e evs IH]; intros w C R; simpl; [exact R |].
    apply IH; [apply Clock_step, C |].
    destruct e; try exact (Rate_commit _ (Rate_handle _ w R)).
    unfold step, elapse.
    assert (F : ∀ ids x, Clock x → Rate x →
                Rate (fold_left (λ w id, fire env id w) ids x)).
    { induction ids as [| id ids IHi]; intros x Cx Rx; simpl; [exact Rx |].
      apply IHi; [apply Clock_fire, Cx | apply Rate_fire; assumption]. }
    apply F; [apply Clock_advance, C | apply (Rate_same w); auto]. }
  apply G; [apply Clock_initial | apply Rate_initial].
Qed.

Lemma spaced_bound l n :
  spaced l → Forall (λ a, a ≤ n) l → Forall (λ a, 100 ≤ a) l →
  100 * length l ≤ n.
Proof.
  revert n. induction l as [| a l IH]; intros n Hs Hn Hl; simpl; [lia |].
  destruct Hs as [Hg Hs]. apply Forall_cons in Hn as [Ha Hn].
  apply Forall_cons in Hl as [Ha' Hl].
  assert (100 * length l ≤ a - 100).
  { apply IH; [exact Hs | | exact Hl].
    eapply Forall_impl; [exact Hg |]. simpl. intros; lia. }
  lia.
Qed.

(** The client sends at most ten frames a second: after [n]
    milliseconds no more than [n / 100] frames have been emitted,
    however streaming was started, stopped and restarted. *)
Theorem at_most_one_frame_per_100ms host evs :
  let w := run evs (initial host) in
  100 * length (emitted w) ≤ now w.
Proof.
  cbv zeta. pose proof (Rate_run host evs) as [R1 R2 _].
  pose proof (Clock_run evs _ (Clock_initial host)) as C.
  pose proof (spaced_bound _ _ (c_spaced _ C) (c_past _ C) R2). lia.
Qed.

(** ** Switching mode and selector *)

Lemma stop_hooks_eq w :
  hooks (stopVideoStreaming w)
  = hooks (setProcessedVideoFrame null (setIsVideoStreaming false w)).
Proof.
  unfold stopVideoStreaming. simpl.
  destruct (streamIntervalRef w) as [[|n]|]; reflexivity.
Qed.

Lemma photo_mode_has_no_socket host evs :
  isVideoMode (hooks (run evs (initial host))) = false →
  socketRef (run evs (initial host)) = None.
Proof.
  intros M. destruct (socketRef _) as [s|] eqn:E; [| reflexivity].
  destruct (socket_closure_current host evs s E) as [M' _]. congruence.
Qed.

(** Leaving video mode ends the session: the page is in photo mode, not
    streaming, without socket, interval ref or interval, and the photo
    cells and the error are cleared. *)
Theorem leaving_video_mode_ends_session host evs :
  let w := run evs (initial host) in
  let w' := step SwitchToPhotoClick w in
  isVideoMode (hooks w) = true →
  isVideoMode (hooks w') = false ∧ isVideoStreaming (hooks w') = false ∧
  socketRef w' = None ∧ streamIntervalRef w' = None ∧ intervals w' = [] ∧
  capturedImage (hooks w') = None ∧ previewURL (hooks w') = null ∧
  imageURL (hooks w') = null ∧ errorMessage (hooks w') = null.
Proof.
  cbv zeta. intros M.
  pose proof (photo_mode_has_no_socket host (evs ++ [SwitchToPhotoClick])) as Hs.
  pose proof (idle_has_no_interval host (evs ++ [SwitchToPhotoClick])) as Hn.
  rewrite run_snoc in Hs, Hn.
  destruct (reach_run host evs) as (HS & _). unfold Settled in HS.
  set (w := run evs (initial host)) in *. clearbody w.
  assert (G : isVideoMode (hooks (step SwitchToPhotoClick w)) = false ∧
              isVideoStreaming (hooks (step SwitchToPhotoClick w)) = false ∧
              capturedImage (hooks (step SwitchToPhotoClick w)) = None ∧
              previewURL (hooks (step SwitchToPhotoClick w)) = null ∧
              imageURL (hooks (step SwitchToPhotoClick w)) = null ∧
              errorMessage (hooks (step SwitchToPhotoClick w)) = null).
  { change (step SwitchToPhotoClick w) with (commit (handle SwitchToPhotoClick w)).
    destruct (commit_keeps (handle SwitchToPhotoClick w)) as (-> & _).
    unfold handle, toggleVideoMode. rewrite HS, M.
    destruct (isVideoStreaming (hooks w)) eqn:V.
    - rewrite stop_hooks_eq. simpl. auto 10.
    - simpl. auto 10. }
  destruct G as (G1 & G2 & G3 & G4 & G5 & G6).
  destruct (Hn G2). auto 10.
Qed.

Lemma leaving_video_mode_ends_session_witness :
  let w := run streaming_trace (initial "localhost") in
  let w' := step SwitchToPhotoClick w in
  isVideoMode (hooks w) = true ∧ isVideoStreaming (hooks w) = true ∧
  isVideoStreaming (hooks w') = false ∧ socketRef w' = None ∧
  intervals w' = [].
Proof.
  assert (H : isVideoMode (hooks (run streaming_trace (initial "localhost"))) = true)
    by (vm_compute; reflexivity).
  pose proof (leaving_video_mode_ends_session "localhost" streaming_trace H)
    as (_ & H2 & H3 & _ & H5 & _).
  split; [exact H |]. split; [vm_compute; reflexivity |]. auto.
Defined.

Lemma commit_rerun w :
  Clock w → deps (rendered w) ≠ deps (hooks w) →
  streamIntervalRef (commit w) = None ∧
  socketRef (commit w) =
    (if isVideoMode (hooks w)
     then Some {| sock_id := nextSocket w; connected := false;
                  sock_closure := hooks w |}
     else None).
Proof.
  intros C D. unfold commit. rewrite bool_decide_eq_false_2 by exact D.
  unfold effectBody, effectCleanup. simpl.
  pose proof (c_ref _ C) as Hr.
  destruct (socketRef w) eqn:Sk; simpl;
    destruct (streamIntervalRef w) as [[|n]|] eqn:R; simpl; rewrite ?Sk;
    try (specialize (Hr 0 eq_refl); lia);
    destruct (isVideoMode (hooks w)); simpl; auto.
Qed.

(** Entering video mode clears the photo cells and the error, and the
    effect opens a socket, not yet connected, whose handlers belong to
    the new render; no interval exists and nothing is emitted. *)
Theorem entering_video_mode_opens_socket host evs :
  let w := run evs (initial host) in
  let w' := step VideoModeClick w in
  isVideoMode (hooks w) = false →
  isVideoMode (hooks w') = true ∧
  socketRef w' = Some {| sock_id := nextSocket w; connected := false;
                         sock_closure := hooks w' |} ∧
  capturedImage (hooks w') = None ∧ previewURL (hooks w') = null ∧
  imageURL (hooks w') = null ∧ errorMessage (hooks w') = null ∧
  streamIntervalRef w' = None ∧ intervals w' = [] ∧
  emitted w' = emitted w.
Proof.
  cbv zeta. intros M.
  destruct (reach_run host (evs ++ [VideoModeClick])) as (_ & C' & _).
  rewrite run_snoc in C'.
  destruct (reach_run host evs) as (HS & C & _). unfold Settled in HS.
  set (w := run evs (initial host)) in *. clearbody w.
  change (step VideoModeClick w) with (commit (handle VideoModeClick w)) in *.
  destruct (commit_keeps (handle VideoModeClick w)) as (Hh & _ & He & _).
  destruct (handle_quiet VideoModeClick w) as [Hq _].
  assert (G : rendered (handle VideoModeClick w) = rendered w ∧
              nextSocket (handle VideoModeClick w) = nextSocket w ∧
              isVideoMode (hooks (handle VideoModeClick w)) = true ∧
              capturedImage (hooks (handle VideoModeClick w)) = None ∧
              previewURL (hooks (handle VideoModeClick w)) = null ∧
              imageURL (hooks (handle VideoModeClick w)) = null ∧
              errorMessage (hooks (handle VideoModeClick w)) = null).
  { unfold handle, toggleVideoMode. rewrite HS, M.
    destruct (isVideoStreaming (hooks w)).
    - rewrite stop_hooks_eq. unfold stopVideoStreaming. simpl.
      destruct (streamIntervalRef w) as [[|n]|]; simpl; auto 10.
    - simpl. auto 10. }
  destruct G as (G0 & G1 & G2 & G3 & G4 & G5 & G6).
  destruct (commit_rerun (handle VideoModeClick w) (Clock_handle _ w C))
    as [R S].
  { unfold deps. rewrite G0, HS, M, G2. intros [=]. }
  rewrite G2, G1 in S. rewrite Hh, He, Hq, S, R.
  repeat split; try assumption. apply no_ref_no_interval; assumption.
Qed.

Lemma entering_video_mode_opens_socket_witness :
  let w := run photo_trace (initial "localhost") in
  let w' := step VideoModeClick w in
  isVideoMode (hooks w) = false ∧ capturedImage (hooks w) ≠ None ∧
  isVideoMode (hooks w') = true ∧ capturedImage (hooks w') = None.
Proof.
  pose proof (entering_video_mode_opens_socket "localhost" photo_trace eq_refl)
    as (H1 & _ & H3 & _).
  split; [reflexivity |]. split; [discriminate |]. exact (conj H1 H3).
Defined.

(** Changing the selector stores the new value and, while streaming in
    video mode, blanks the processed frame; it leaves the socket, the
    interval ref and the timer table, with the render each callback
    closed over, exactly as they were. *)
Theorem selector_change_restarts_nothing host evs o :
  let w := run evs (initial host) in
  let w' := step (SelectChange o) w in
  deficiency (hooks w') = option_value o ∧
  timers w' = timers w ∧ streamIntervalRef w' = streamIntervalRef w ∧
  socketRef w' = socketRef w ∧ emitted w' = emitted w ∧
  isVideoStreaming (hooks w') = isVideoStreaming (hooks w) ∧
  (if isVideoMode (hooks w) && isVideoStreaming (hooks w)
   then processedVideoFrame (hooks w') = null
   else processedVideoFrame (hooks w') = processedVideoFrame (hooks w)).
Proof.
  cbv zeta.
  destruct (reach_run host evs) as (HS & _). unfold Settled in HS.
  set (w := run evs (initial host)) in *. clearbody w.
  change (step (SelectChange o) w) with (commit (handle (SelectChange o) w)).
  unfold handle, onSelectChange. rewrite HS.
  destruct (isVideoMode (hooks w) && isVideoStreaming (hooks w));
    rewrite commit_same_deps by (simpl; rewrite HS; reflexivity);
    simpl; auto 10.
Qed.
